(** * heapqbasic: the file-backed priority queue of [main.py]

    A shallow embedding of [PersistentPriorityQueue] and the properties of
    its read-modify-write cycle.

    Modelling conventions.
    - A Python [str] is a [string] whose characters are the code points
      0..255; the character classes below are CPython's, restricted to that
      range.
    - The file at [self.file_path] is the whole state: [None] when the file
      does not exist, [Some txt] when it holds the text [txt].  Text is
      written as it is (a POSIX platform, where ['\n'] is not translated on
      output) and read through universal-newline translation, as
      [open(path, 'r')] does.
    - A priority is a Python [int], hence a [Z].  I/O failures other than a
      missing file, and the limit CPython 3.11 puts on the number of digits
      of an [int] conversion, are outside the model.
    - An entry is the tuple [(priority, item)] of the source. *)

From Stdlib Require Import ZArith List String Ascii Bool Lia.
From Stdlib Require Import Decimal DecimalString DecimalPos Sorted Permutation.
Import ListNotations.

Local Open Scope string_scope.
Local Open Scope Z_scope.

(** ** Python's [str] and [int] built-ins *)

Module Py.

Definition LF : ascii := ascii_of_N 10.
Definition CR : ascii := ascii_of_N 13.
Definition SP : ascii := ascii_of_N 32.

Definition between (lo hi : N) (c : ascii) : bool :=
  let n := N_of_ascii c in (N.leb lo n && N.leb n hi)%bool.

(** [str.isspace] on one character: 9..13, 28..32, 0x85 and 0xA0. *)
Definition isspace (c : ascii) : bool :=
  (between 9 13 c || between 28 32 c || between 133 133 c
   || between 160 160 c)%bool.

(** The blanks [int()] skips around a literal: C's [isspace] on the ASCII
    range, and the two blanks above it, which [int()] first turns into a
    space.  The separators 28..31 are NOT among them. *)
Definition int_space (c : ascii) : bool :=
  (between 9 13 c || between 32 32 c || between 133 133 c
   || between 160 160 c)%bool.

Definition isdigit (c : ascii) : bool := between 48 57 c.

Definition digit_val (c : ascii) : Z := Z.of_N (N_of_ascii c) - 48.

Section Strip.
Variable blank : ascii -> bool.

Fixpoint lstrip_with (s : string) : string :=
  match s with
  | EmptyString => EmptyString
  | String c s' => if blank c then lstrip_with s' else s
  end.

Fixpoint rstrip_with (s : string) : string :=
  match s with
  | EmptyString => EmptyString
  | String c s' =>
      match rstrip_with s' with
      | EmptyString => if blank c then EmptyString else String c EmptyString
      | r => String c r
      end
  end.

Definition strip_with (s : string) : string := rstrip_with (lstrip_with s).
End Strip.

(** [s.strip()] *)
Definition strip : string -> string := strip_with isspace.

(** [s.rstrip()] *)
Definition rstrip : string -> string := rstrip_with isspace.

(** The first occurrence of a single space: what is before it and what is
    after it. *)
Fixpoint cut_space (s : string) : option (string * string) :=
  match s with
  | EmptyString => None
  | String c s' =>
      if Ascii.eqb c SP then Some (EmptyString, s')
      else match cut_space s' with
           | Some (a, b) => Some (String c a, b)
           | None => None
           end
  end.

(** [s.split(' ', 1)]: at most one split, at the first space. *)
Definition split_space_1 (s : string) : list string :=
  match cut_space s with
  | Some (a, b) => [a; b]
  | None => [s]
  end.

(** [str(n)] for an [int], which is also what an f-string prints. *)
Definition str (n : Z) : string := NilZero.string_of_int (Z.to_int n).

(** Digits of a literal once a digit has been read: more digits, each
    possibly preceded by ONE underscore. *)
Fixpoint int_digits (acc : Z) (s : string) : option Z :=
  match s with
  | EmptyString => Some acc
  | String c s' =>
      if isdigit c then int_digits (10 * acc + digit_val c) s'
      else if Ascii.eqb c "_" then
        match s' with
        | String d s'' =>
            if isdigit d then int_digits (10 * acc + digit_val d) s''
            else None
        | EmptyString => None
        end
      else None
  end.

Definition int_unsigned (s : string) : option Z :=
  match s with
  | String c s' => if isdigit c then int_digits (digit_val c) s' else None
  | EmptyString => None
  end.

(** [int(s)] in base 10; [None] stands for [ValueError]. *)
Definition int (s : string) : option Z :=
  match strip_with int_space s with
  | String c s' =>
      if Ascii.eqb c "-" then option_map Z.opp (int_unsigned s')
      else if Ascii.eqb c "+" then int_unsigned s'
      else int_unsigned (String c s')
  | EmptyString => None
  end.

(** Universal newlines on input: ["\r\n"] and a lone ["\r"] become
    ["\n"]. *)
Fixpoint universal_newlines (s : string) : string :=
  match s with
  | EmptyString => EmptyString
  | String c s' =>
      if Ascii.eqb c CR then
        match s' with
        | String d s'' =>
            if Ascii.eqb d LF then String LF (universal_newlines s'')
            else String LF (universal_newlines s')
        | EmptyString => String LF EmptyString
        end
      else String c (universal_newlines s')
  end.

(** The lines a text file iterates over, each with its line end. *)
Fixpoint lines (s : string) : list string :=
  match s with
  | EmptyString => []
  | String c s' =>
      if Ascii.eqb c LF then String LF EmptyString :: lines s'
      else match lines s' with
           | [] => [String c EmptyString]
           | l :: ls => String c l :: ls
           end
  end.

(** [min(xs, key=...)] of a non-empty sequence: the running best is
    replaced only by a strictly smaller key, so the first minimum wins. *)
Fixpoint min_from {A} (key : A -> Z) (best : A) (xs : list A) : A :=
  match xs with
  | [] => best
  | x :: xs' => min_from key (if key x <? key best then x else best) xs'
  end.

(** [xs.remove(v)]: drops the first element equal to [v]; [None] stands
    for the [ValueError] of a missing value. *)
Fixpoint remove {A} (eqb : A -> A -> bool) (v : A) (xs : list A)
  : option (list A) :=
  match xs with
  | [] => None
  | x :: xs' =>
      if eqb x v then Some xs'
      else option_map (cons x) (remove eqb v xs')
  end.

(** [xs.sort(key=...)] is a stable sort; it is modelled by the stable
    insertion sort. *)
Fixpoint insert_by {A} (key : A -> Z) (x : A) (xs : list A) : list A :=
  match xs with
  | [] => [x]
  | y :: ys => if key x <=? key y then x :: xs else y :: insert_by key x ys
  end.

Fixpoint sort_by {A} (key : A -> Z) (xs : list A) : list A :=
  match xs with
  | [] => []
  | x :: xs' => insert_by key x (sort_by key xs')
  end.

End Py.

(** ** Exceptions, the file and the monad of a method call *)

Inductive value_error : Type :=
| NotEnoughValues            (* [priority, item = ...] got one value      *)
| InvalidLiteral             (* [int(priority)]                           *)
| NotInList                  (* [items.remove(x)]                         *)
| ItemNotFound (target : string). (* raised by [change_priority]          *)

Inductive exn : Type :=
| FileNotFoundError
| ValueError (why : value_error)
| IndexError.                (* "Queue is empty" *)

Definition entry : Type := (Z * string)%type.
Definition priority_of (e : entry) : Z := fst e.
Definition item_of (e : entry) : string := snd e.

Definition entry_eqb (a b : entry) : bool :=
  (Z.eqb (fst a) (fst b) && String.eqb (snd a) (snd b))%bool.

(** The file at [self.file_path]. *)
Definition store : Type := option string.

Definition result (A : Type) : Type := (exn + A)%type.
Definition IO (A : Type) : Type := store -> store * result A.

Definition ret {A} (a : A) : IO A := fun st => (st, inr a).
Definition raise {A} (e : exn) : IO A := fun st => (st, inl e).
Definition bind {A B} (m : IO A) (k : A -> IO B) : IO B :=
  fun st =>
    match m st with
    | (st', inr a) => k a st'
    | (st', inl e) => (st', inl e)
    end.

Declare Scope io_scope.
Delimit Scope io_scope with io.
Notation "x <- m ;; k" := (bind m (fun x => k))
  (at level 61, m at next level, right associativity) : io_scope.
Notation "m ;; k" := (bind m (fun _ => k))
  (at level 61, right associativity) : io_scope.
Local Open Scope io_scope.

(** [open(path, 'r')] and the iteration over its lines. *)
Definition open_r_lines : IO (list string) :=
  fun st =>
    match st with
    | None => (st, inl FileNotFoundError)
    | Some txt => (st, inr (Py.lines (Py.universal_newlines txt)))
    end.

(** [open(path, 'a')] then [write(txt)]: the file is created when missing. *)
Definition open_a_write (txt : string) : IO unit :=
  fun st =>
    match st with
    | None => (Some txt, inr tt)
    | Some old => (Some (old ++ txt), inr tt)
    end.

(** [open(path, 'w')] then the writes, whose concatenation is [txt]. *)
Definition open_w_write (txt : string) : IO unit :=
  fun _ => (Some txt, inr tt).

(** ** The line format *)

(** [f"{priority} {item}\n"] *)
Definition encode_line (e : entry) : string :=
  Py.str (priority_of e) ++ String Py.SP (item_of e ++ String Py.LF "").

(** The body of every reading loop:
    [priority, item = line.strip().split(' ', 1)] and then
    [(int(priority), item)]. *)
Definition decode_line (line : string) : result entry :=
  match Py.split_space_1 (Py.strip line) with
  | [priority; item] =>
      match Py.int priority with
      | Some p => inr (p, item)
      | None => inl (ValueError InvalidLiteral)
      end
  | _ => inl (ValueError NotEnoughValues)
  end.

Fixpoint decode_lines (ls : list string) : result (list entry) :=
  match ls with
  | [] => inr []
  | l :: ls' =>
      match decode_line l with
      | inl e => inl e
      | inr x =>
          match decode_lines ls' with
          | inl e => inl e
          | inr xs => inr (x :: xs)
          end
      end
  end.

(** The text the writing loop produces: one [write] per entry. *)
Definition encode_all (items : list entry) : string :=
  fold_right (fun e rest => encode_line e ++ rest) "" items.

(** The reading loop that opens [pop], [peek], [change_priority],
    [reorder_priorities] and [insert_and_shift_up]. *)
Definition read_items : IO (list entry) :=
  ls <- open_r_lines ;;
  match decode_lines ls with
  | inr items => ret items
  | inl e => raise e
  end.

(** The writing loop that closes the mutating methods. *)
Definition write_items (items : list entry) : IO unit :=
  open_w_write (encode_all items).

(** ** The methods of [PersistentPriorityQueue] *)

Definition push (item : string) (priority : Z) : IO unit :=
  open_a_write (encode_line (priority, item)).

Definition highest_priority (items : list entry) : option entry :=
  match items with
  | [] => None
  | x :: xs => Some (Py.min_from priority_of x xs)
  end.

Definition pop : IO string :=
  items <- read_items ;;
  match highest_priority items with
  | None => raise IndexError
  | Some highest_priority_item =>
      match Py.remove entry_eqb highest_priority_item items with
      | None => raise (ValueError NotInList)
      | Some rest =>
          write_items rest ;;
          ret (item_of highest_priority_item)
      end
  end.

Definition peek : IO string :=
  items <- read_items ;;
  match highest_priority items with
  | None => raise IndexError
  | Some highest_priority_item => ret (item_of highest_priority_item)
  end.

Definition is_empty : IO bool :=
  ls <- open_r_lines ;;
  ret (match ls with [] => true | _ => false end).

(** The loop of [change_priority]: the updated list and the [found] flag. *)
Fixpoint update_items (target_item : string) (new_priority : Z)
  (items : list entry) : list entry * bool :=
  match items with
  | [] => ([], false)
  | (priority, item) :: rest =>
      let (updated, found) := update_items target_item new_priority rest in
      if String.eqb item target_item
      then ((new_priority, item) :: updated, true)
      else ((priority, item) :: updated, found)
  end.

Definition change_priority (target_item : string) (new_priority : Z)
  : IO unit :=
  items <- read_items ;;
  let (updated_items, found) := update_items target_item new_priority items in
  if found then write_items updated_items
  else raise (ValueError (ItemNotFound target_item)).

(** The renumbering loop of [reorder_priorities]. *)
Fixpoint renumber (new_priority : Z) (items : list entry) : list entry :=
  match items with
  | [] => []
  | (_, item) :: rest => (new_priority, item) :: renumber (new_priority + 1) rest
  end.

Definition reorder_priorities : IO unit :=
  items <- read_items ;;
  write_items (renumber 1 (Py.sort_by priority_of items)).

Definition shift_up (target_priority : Z) (e : entry) : entry :=
  let (p, i) := e in (if p >=? target_priority then p + 1 else p, i).

Definition insert_and_shift_up (item : string) (target_priority : Z)
  : IO unit :=
  items <- read_items ;;
  write_items
    (Py.sort_by priority_of
       (map (shift_up target_priority) items ++ [(target_priority, item)])).

(** ** Sequences of calls *)

(** [push(item, priority)] for each pair, in order. *)
Fixpoint push_all (calls : list (string * Z)) : IO unit :=
  match calls with
  | [] => ret tt
  | (item, priority) :: rest => push item priority ;; push_all rest
  end.

(** [pop()] again and again until it signals the empty queue; any other
    exception ends the run.  [None] only when [fuel] calls did not reach the
    end. *)
Fixpoint pop_until_empty (fuel : nat) (st : store)
  : option (store * result (list string)) :=
  match fuel with
  | O => None
  | S fuel' =>
      match pop st with
      | (st', inr item) =>
          match pop_until_empty fuel' st' with
          | Some (st'', inr items) => Some (st'', inr (item :: items))
          | other => other
          end
      | (st', inl IndexError) => Some (st', inr [])
      | (st', inl e) => Some (st', inl e)
      end
  end.

(** The entry a [push] call stores. *)
Definition entry_of_call (c : string * Z) : entry := (snd c, fst c).

(** ** Predicates on texts *)

Fixpoint all_chars (q : ascii -> bool) (s : string) : bool :=
  match s with
  | EmptyString => true
  | String c s' => (q c && all_chars q s')%bool
  end.

(** The text is not empty and its last character is not [blank]. *)
Fixpoint ends_nonblank (blank : ascii -> bool) (s : string) : bool :=
  match s with
  | EmptyString => false
  | String c s' =>
      match s' with
      | EmptyString => negb (blank c)
      | String _ _ => ends_nonblank blank s'
      end
  end.

Definition not_line_break (c : ascii) : bool :=
  (negb (Ascii.eqb c Py.LF) && negb (Ascii.eqb c Py.CR))%bool.

Definition not_space (c : ascii) : bool := negb (Ascii.eqb c Py.SP).

(** The items a line of the file can carry unchanged: not empty, no line
    feed and no carriage return inside, and a last character that
    [str.strip] keeps. *)
Definition line_safe (item : string) : bool :=
  (ends_nonblank Py.isspace item && all_chars not_line_break item)%bool.

(** A store that exists and whose every line decodes, with its entries. *)
Definition decodes_to (st : store) (items : list entry) : Prop :=
  read_items st = (st, inr items).

(** The characters of a printed [int]. *)
Definition numeric (c : ascii) : bool := (Py.isdigit c || Ascii.eqb c "-")%bool.

(** The value [int_digits] computes along a decimal number. *)
Fixpoint uint_value (acc : Z) (d : uint) : Z :=
  match d with
  | Nil => acc
  | D0 d => uint_value (10 * acc) d
  | D1 d => uint_value (10 * acc + 1) d
  | D2 d => uint_value (10 * acc + 2) d
  | D3 d => uint_value (10 * acc + 3) d
  | D4 d => uint_value (10 * acc + 4) d
  | D5 d => uint_value (10 * acc + 5) d
  | D6 d => uint_value (10 * acc + 6) d
  | D7 d => uint_value (10 * acc + 7) d
  | D8 d => uint_value (10 * acc + 8) d
  | D9 d => uint_value (10 * acc + 9) d
  end.

Definition not_cr (c : ascii) : bool := negb (Ascii.eqb c Py.CR).
Definition not_lf (c : ascii) : bool := negb (Ascii.eqb c Py.LF).

(** A line is a text without line feed, followed or not by one. *)
Definition line_shape (l : string) : Prop :=
  exists body, all_chars not_lf body = true /\
               (l = body \/ l = body ++ String Py.LF "").

(** No item holds a line feed or a carriage return. *)
Definition breakless (items : list entry) : Prop :=
  Forall (fun e => all_chars not_line_break (item_of e) = true) items.

(** The items a line carries up to the blanks at their end: no line feed
    and no carriage return inside, and some character that is not a
    blank. *)
Definition pushable (item : string) : bool :=
  (all_chars not_line_break item
   && negb (String.eqb (Py.rstrip item) ""))%bool.

(** The entry without the blanks at the end of its item. *)
Definition as_read (e : entry) : entry :=
  (priority_of e, Py.rstrip (item_of e)).

(** Every item is one a line carries unchanged. *)
Definition safe_entries (items : list entry) : Prop :=
  Forall (fun e => line_safe (item_of e) = true) items.

Definition ascending {A} (key : A -> Z) (xs : list A) : Prop :=
  Sorted (fun a b => key a <= key b) xs.

(** The text of the store, empty when the file is missing. *)
Definition content (st : store) : string :=
  match st with
  | Some t => t
  | None => ""
  end.

Definition nl : string := String Py.LF "".

(** The update [change_priority] applies to one entry. *)
Definition retarget (target_item : string) (new_priority : Z) (e : entry)
  : entry :=
  if String.eqb (item_of e) target_item then (new_priority, item_of e) else e.

(** From an existing empty store, the pushes succeed and the pops that
    follow hand the pushed items back sorted by priority, the pushes of one
    priority in the order they were made, and leave the store empty. *)
Definition drains_in_priority_order (calls : list (string * Z)) : Prop :=
  exists st,
    push_all calls (Some "") = (st, inr tt) /\
    forall fuel, (List.length calls < fuel)%nat ->
      pop_until_empty fuel st
      = Some (Some "",
              inr (map item_of
                     (Py.sort_by priority_of (map entry_of_call calls)))).

(** ** [print_queue], the queue object and the command line *)

(** [print(file.read())]: the text it prints, the line end of [print]
    included. *)
Definition print_queue : IO string :=
  fun st =>
    match st with
    | None => (st, inl FileNotFoundError)
    | Some txt => (st, inr (Py.universal_newlines txt ++ nl))
    end.

(** The files of the working directory, by path. *)
Definition files : Type := string -> option string.

Definition set_file (path : string) (st : store) (fs : files) : files :=
  fun p => if String.eqb p path then st else fs p.

(** [__init__]: the object holds the path of its file. *)
Record PersistentPriorityQueue : Type := { file_path : string }.

(** A method call on the object: it runs on the file at [self.file_path]. *)
Definition call {A} (self : PersistentPriorityQueue) (m : IO A)
  : files -> files * result A :=
  fun fs =>
    let (st, r) := m (fs (file_path self)) in
    (set_file (file_path self) st fs, r).

(** What [parser.parse_args()] returns: [None] or the two strings of an
    option with [nargs=2], a boolean for a [store_true] flag. *)
Record Namespace : Type := {
  args_file : string;
  args_push : option (string * string);
  args_pop : bool;
  args_peek : bool;
  args_is_empty : bool;
  args_change_priority : option (string * string);
  args_reorder_priorities : bool;
  args_print_queue : bool;
  args_insert_and_shift_up : option (string * string)
}.

(** [str(b)] for a [bool]. *)
Definition str_bool (b : bool) : string := if b then "True" else "False".

(** [int(s)] as a step of the script. *)
Definition int_arg (s : string) : IO Z :=
  match Py.int s with
  | Some n => ret n
  | None => raise (ValueError InvalidLiteral)
  end.

(** The script: the queue is built on ["priority_queue.txt"], then the
    [if]/[elif] chain runs the first option that is set.  The result is the
    text sent to standard output. *)
Definition main (args : Namespace) : files -> files * result string :=
  let pq := {| file_path := "priority_queue.txt" |} in
  call pq
    match args_push args with
    | Some (item, priority) =>
        p <- int_arg priority ;; push item p ;; ret ""
    | None =>
    if args_pop args then
      item <- pop ;; ret ("Popped item: " ++ item ++ nl)
    else if args_peek args then
      item <- peek ;; ret ("Peeked item: " ++ item ++ nl)
    else if args_is_empty args then
      b <- is_empty ;; ret ("Queue is empty: " ++ str_bool b ++ nl)
    else
    match args_change_priority args with
    | Some (item, new_priority) =>
        p <- int_arg new_priority ;; change_priority item p ;; ret ""
    | None =>
    if args_reorder_priorities args then reorder_priorities ;; ret ""
    else if args_print_queue args then print_queue
    else
    match args_insert_and_shift_up args with
    | Some (item, target_priority) =>
        p <- int_arg target_priority ;; insert_and_shift_up item p ;; ret ""
    | None => ret ""
    end
    end
    end.

(** The same arguments with another [--file]. *)
Definition with_file (path : string) (a : Namespace) : Namespace :=
  {| args_file := path;
     args_push := args_push a;
     args_pop := args_pop a;
     args_peek := args_peek a;
     args_is_empty := args_is_empty a;
     args_change_priority := args_change_priority a;
     args_reorder_priorities := args_reorder_priorities a;
     args_print_queue := args_print_queue a;
     args_insert_and_shift_up := args_insert_and_shift_up a |}.

(** The same arguments with another [--insert_and_shift_up]. *)
Definition with_insert_and_shift_up (v : option (string * string))
  (a : Namespace) : Namespace :=
  {| args_file := args_file a;
     args_push := args_push a;
     args_pop := args_pop a;
     args_peek := args_peek a;
     args_is_empty := args_is_empty a;
     args_change_priority := args_change_priority a;
     args_reorder_priorities := args_reorder_priorities a;
     args_print_queue := args_print_queue a;
     args_insert_and_shift_up := v |}.

(** One of the options of the first group is set. *)
Definition first_group_set (a : Namespace) : bool :=
  (match args_push a with Some _ => true | None => false end
   || args_pop a || args_peek a || args_is_empty a
   || match args_change_priority a with Some _ => true | None => false end
   || args_reorder_priorities a || args_print_queue a)%bool.

(** CPython's default bound on the decimal digits of an [int] that [str]
    prints (3.11 and later; earlier versions have none). *)
Definition int_max_str_digits : nat := 4300.

(** The priorities [str] prints under that bound: the sign is not
    counted. *)
Definition within_int_limit (n : Z) : bool :=
  (String.length (Py.str (Z.abs n)) <=? int_max_str_digits)%nat.

(** The text is empty or ends with a line feed. *)
Definition newline_terminated (txt : string) : Prop :=
  txt = "" \/ exists t, txt = t ++ nl.

(** * Proofs *)

(** ** Texts: stripping, cutting and lines *)

Lemma append_assoc (a b c : string) : (a ++ b) ++ c = a ++ (b ++ c).
Proof. induction a as [|x a IH]; simpl; [reflexivity|now rewrite IH]. Qed.

Lemma append_nil_r (a : string) : a ++ "" = a.
Proof. induction a as [|x a IH]; simpl; [reflexivity|now rewrite IH]. Qed.

Lemma all_chars_app q a b :
  all_chars q (a ++ b) = (all_chars q a && all_chars q b)%bool.
Proof.
  induction a as [|c a IH]; simpl; [reflexivity|].
  now rewrite IH, andb_assoc.
Qed.

Lemma all_chars_weaken (q r : ascii -> bool) s :
  (forall c, q c = true -> r c = true) ->
  all_chars q s = true -> all_chars r s = true.
Proof.
  intros Hqr. induction s as [|c s IH]; simpl; [easy|].
  intros H. apply andb_true_iff in H as [Hc Hs].
  now rewrite (Hqr _ Hc), IH.
Qed.

Lemma ends_nonblank_app blank a c b :
  ends_nonblank blank (a ++ String c b) = ends_nonblank blank (String c b).
Proof.
  induction a as [|x a IH]; [reflexivity|].
  change ((String x a) ++ String c b) with (String x (a ++ String c b)).
  rewrite <- IH. destruct a; reflexivity.
Qed.

Section StripFacts.
Variable blank : ascii -> bool.

Lemma lstrip_all_blank w :
  all_chars blank w = true -> Py.lstrip_with blank w = "".
Proof.
  induction w as [|c w IH]; simpl; [easy|].
  intros H. apply andb_true_iff in H as [Hc Hw]. now rewrite Hc, IH.
Qed.

Lemma rstrip_all_blank w :
  all_chars blank w = true -> Py.rstrip_with blank w = "".
Proof.
  induction w as [|c w IH]; simpl; [easy|].
  intros H. apply andb_true_iff in H as [Hc Hw]. now rewrite IH, Hc.
Qed.

Lemma rstrip_app_blank s w :
  all_chars blank w = true ->
  Py.rstrip_with blank (s ++ w) = Py.rstrip_with blank s.
Proof.
  intros Hw. induction s as [|c s IH]; simpl.
  - now apply rstrip_all_blank.
  - now rewrite IH.
Qed.

Lemma rstrip_ends_nonblank s :
  ends_nonblank blank s = true -> Py.rstrip_with blank s = s.
Proof.
  induction s as [|c s IH]; [easy|].
  destruct s as [|d s].
  - simpl. intros H. apply negb_true_iff in H. now rewrite H.
  - intros H. change (ends_nonblank blank (String d s) = true) in H.
    specialize (IH H).
    change (Py.rstrip_with blank (String c (String d s)))
      with (match Py.rstrip_with blank (String d s) with
            | "" => if blank c then "" else String c ""
            | r => String c r
            end).
    now rewrite IH.
Qed.

Lemma rstrip_app_keep a b :
  Py.rstrip_with blank b <> "" ->
  Py.rstrip_with blank (a ++ b) = a ++ Py.rstrip_with blank b.
Proof.
  intros Hb. induction a as [|x a IH]; [reflexivity|].
  simpl. rewrite IH.
  destruct (a ++ Py.rstrip_with blank b) as [|y r] eqn:E; [|reflexivity].
  destruct a; simpl in E; [contradiction|discriminate].
Qed.

Lemma strip_app_blank s w :
  all_chars blank w = true ->
  Py.strip_with blank (s ++ w) = Py.strip_with blank s.
Proof.
  intros Hw. unfold Py.strip_with.
  induction s as [|c s IH]; simpl.
  - now rewrite (lstrip_all_blank _ Hw).
  - destruct (blank c); [exact IH|].
    now apply (rstrip_app_blank (String c s)).
Qed.

Lemma strip_fixed c s :
  blank c = false -> ends_nonblank blank (String c s) = true ->
  Py.strip_with blank (String c s) = String c s.
Proof.
  intros Hc He. unfold Py.strip_with. simpl Py.lstrip_with. rewrite Hc.
  now apply rstrip_ends_nonblank.
Qed.

Lemma rstrip_empty_or_ends s :
  Py.rstrip_with blank s = "" \/
  ends_nonblank blank (Py.rstrip_with blank s) = true.
Proof.
  induction s as [|c s IH]; simpl; [now left|].
  destruct (Py.rstrip_with blank s) as [|d r] eqn:E.
  - destruct (blank c) eqn:Hc; [now left|right]. simpl. now rewrite Hc.
  - right. destruct IH as [IH|IH]; [discriminate|exact IH].
Qed.

Lemma lstrip_all_chars q s :
  all_chars q s = true -> all_chars q (Py.lstrip_with blank s) = true.
Proof.
  induction s as [|c s IH]; simpl; [easy|].
  intros H. destruct (blank c); [|exact H].
  apply andb_true_iff in H as [_ Hs]. now apply IH.
Qed.

Lemma rstrip_all_chars q s :
  all_chars q s = true -> all_chars q (Py.rstrip_with blank s) = true.
Proof.
  induction s as [|c s IH]; simpl; [easy|].
  intros H. apply andb_true_iff in H as [Hc Hs]. specialize (IH Hs).
  destruct (Py.rstrip_with blank s) as [|d r].
  - destruct (blank c); simpl; [easy|now rewrite Hc].
  - simpl in *. now rewrite Hc, IH.
Qed.

Lemma strip_all_chars q s :
  all_chars q s = true -> all_chars q (Py.strip_with blank s) = true.
Proof.
  intros H. now apply rstrip_all_chars, lstrip_all_chars.
Qed.
End StripFacts.

Lemma cut_space_app a b :
  all_chars not_space a = true ->
  Py.cut_space (a ++ String Py.SP b) = Some (a, b).
Proof.
  induction a as [|c a IH]; simpl; [easy|].
  intros H. apply andb_true_iff in H as [Hc Ha].
  unfold not_space in Hc. apply negb_true_iff in Hc.
  now rewrite Hc, (IH Ha).
Qed.

Lemma cut_space_inv s a b :
  Py.cut_space s = Some (a, b) -> s = a ++ String Py.SP b.
Proof.
  revert a. induction s as [|c s IH]; simpl; [easy|]. intros a.
  destruct (Ascii.eqb c Py.SP) eqn:E.
  - apply Ascii.eqb_eq in E. intros [= <- <-]. now subst c.
  - destruct (Py.cut_space s) as [[a' b']|]; [|easy].
    intros [= <- <-]. simpl. now rewrite (IH a' eq_refl).
Qed.

(** ** Printing and reading an [int] *)

Lemma numeric_classes c :
  numeric c = true ->
  Py.isspace c = false /\ Py.int_space c = false /\
  not_space c = true /\ not_line_break c = true.
Proof.
  destruct c as [[|] [|] [|] [|] [|] [|] [|] [|]]; intros H;
    try discriminate H; repeat split; reflexivity.
Qed.

Lemma uint_digits d : all_chars Py.isdigit (NilEmpty.string_of_uint d) = true.
Proof. induction d; simpl; auto. Qed.

Lemma int_digits_uint d : forall acc,
  Py.int_digits acc (NilEmpty.string_of_uint d) = Some (uint_value acc d).
Proof.
  induction d; intros acc; simpl; try reflexivity;
    rewrite IHd; do 2 f_equal; unfold Py.digit_val; simpl; lia.
Qed.

Lemma int_unsigned_uint d :
  d <> Nil ->
  Py.int_unsigned (NilEmpty.string_of_uint d) = Some (uint_value 0 d).
Proof.
  intros Hd. rewrite <- int_digits_uint. destruct d; [easy|..]; reflexivity.
Qed.

Lemma uint_value_pos d : forall p,
  uint_value (Zpos p) d = Zpos (Pos.of_uint_acc d p).
Proof.
  induction d; intros p; cbn [Pos.of_uint_acc uint_value]; [reflexivity|..];
    rewrite <- IHd; f_equal; lia.
Qed.

Lemma uint_value_zero d : uint_value 0 d = Z.of_N (Pos.of_uint d).
Proof.
  induction d; cbn [Pos.of_uint uint_value]; [reflexivity|exact IHd|..];
    apply uint_value_pos.
Qed.

Lemma str_numeric n :
  exists c s, Py.str n = String c s /\ numeric c = true /\
              all_chars numeric s = true.
Proof.
  assert (D : forall d, all_chars numeric (NilEmpty.string_of_uint d) = true).
  { intros d. apply all_chars_weaken with (q := Py.isdigit); [|apply uint_digits].
    intros c Hc. unfold numeric. now rewrite Hc. }
  assert (U : forall d, exists c s, NilZero.string_of_uint d = String c s /\
                        numeric c = true /\ all_chars numeric s = true).
  { intros d. specialize (D d).
    destruct d; simpl in *; try (apply andb_true_iff in D as [Hc Hs]); eauto. }
  unfold Py.str. destruct (Z.to_int n) as [d|d]; simpl.
  - apply U.
  - destruct (U d) as (c & s & E & Hc & Hs). exists "-"%char. eexists.
    split; [reflexivity|]. split; [reflexivity|].
    rewrite E. simpl. now rewrite Hc, Hs.
Qed.

Lemma all_nonblank_ends blank c s :
  all_chars (fun x => negb (blank x)) (String c s) = true ->
  ends_nonblank blank (String c s) = true.
Proof.
  revert c. induction s as [|d s IH]; intros c H.
  - simpl in *. now rewrite andb_true_r in H.
  - change (ends_nonblank blank (String d s) = true). apply IH.
    simpl in H. now apply andb_true_iff in H as [_ H].
Qed.

Lemma strip_no_blank blank s :
  all_chars (fun x => negb (blank x)) s = true -> Py.strip_with blank s = s.
Proof.
  destruct s as [|c s]; [reflexivity|]. intros H. apply strip_fixed.
  - simpl in H. apply andb_true_iff in H as [H _]. now apply negb_true_iff.
  - now apply all_nonblank_ends.
Qed.

(** [int(str(n)) == n] *)
Lemma int_str n : Py.int (Py.str n) = Some n.
Proof.
  unfold Py.int. rewrite strip_no_blank.
  2:{ destruct (str_numeric n) as (c & s & E & Hc & Hs). rewrite E.
      apply all_chars_weaken with (q := numeric).
      - intros x Hx. apply numeric_classes in Hx as (_ & Hx & _).
        now rewrite Hx.
      - simpl. now rewrite Hc, Hs. }
  unfold Py.str. destruct n as [|p|p]; [reflexivity|..]; simpl Z.to_int;
    pose proof (DecimalPos.Unsigned.to_uint_nonnil p) as Hnil;
    pose proof (DecimalPos.Unsigned.of_to p) as Hval.
  - simpl NilZero.string_of_int.
    assert (E : NilZero.string_of_uint (Pos.to_uint p)
                = NilEmpty.string_of_uint (Pos.to_uint p))
      by (destruct (Pos.to_uint p); easy).
    rewrite E. pose proof (int_unsigned_uint _ Hnil) as Hu.
    rewrite uint_value_zero, Hval in Hu. simpl Z.of_N in Hu.
    pose proof (uint_digits (Pos.to_uint p)) as Hd.
    destruct (NilEmpty.string_of_uint (Pos.to_uint p)) as [|c s] eqn:Es.
    + discriminate Hu.
    + simpl in Hd. apply andb_true_iff in Hd as [Hc _].
      assert (Ascii.eqb c "-" = false /\ Ascii.eqb c "+" = false) as [-> ->].
      { clear - Hc. destruct c as [[|] [|] [|] [|] [|] [|] [|] [|]];
          try discriminate Hc; split; reflexivity. }
      exact Hu.
  - simpl NilZero.string_of_int.
    assert (E : NilZero.string_of_uint (Pos.to_uint p)
                = NilEmpty.string_of_uint (Pos.to_uint p))
      by (destruct (Pos.to_uint p); easy).
    rewrite E, Ascii.eqb_refl, (int_unsigned_uint _ Hnil).
    rewrite uint_value_zero, Hval. reflexivity.
Qed.

(** ** One line: encoding then decoding *)

Lemma line_safe_inv item :
  line_safe item = true ->
  ends_nonblank Py.isspace item = true /\
  all_chars not_line_break item = true.
Proof. unfold line_safe. intros H. now apply andb_true_iff in H. Qed.

Lemma strip_encode_line p item :
  Py.rstrip item <> "" ->
  Py.strip (encode_line (p, item))
  = Py.str p ++ String Py.SP (Py.rstrip item).
Proof.
  intros He. unfold encode_line, Py.strip, priority_of, item_of. simpl fst.
  simpl snd.
  replace (Py.str p ++ String Py.SP (item ++ String Py.LF ""))
    with ((Py.str p ++ String Py.SP item) ++ String Py.LF "")
    by (rewrite append_assoc; reflexivity).
  rewrite strip_app_blank by reflexivity.
  destruct (str_numeric p) as (c & s & E & Hc & _). rewrite E.
  apply numeric_classes in Hc as (Hc & _).
  unfold Py.strip_with.
  change (Py.lstrip_with Py.isspace (String c s ++ String Py.SP item))
    with (if Py.isspace c
          then Py.lstrip_with Py.isspace (s ++ String Py.SP item)
          else String c s ++ String Py.SP item).
  rewrite Hc, rstrip_app_keep.
  - f_equal. unfold Py.rstrip in *. simpl.
    now destruct (Py.rstrip_with Py.isspace item).
  - unfold Py.rstrip in *. simpl.
    now destruct (Py.rstrip_with Py.isspace item).
Qed.

(** Decoding an encoded entry gives the item up to the blanks at its end. *)
Lemma decode_encode_line_rstrip p item :
  Py.rstrip item <> "" ->
  decode_line (encode_line (p, item)) = inr (p, Py.rstrip item).
Proof.
  intros He. unfold decode_line. rewrite (strip_encode_line _ _ He).
  unfold Py.split_space_1. rewrite cut_space_app.
  - now rewrite int_str.
  - destruct (str_numeric p) as (c & s & E & Hc & Hs). rewrite E.
    apply all_chars_weaken with (q := numeric).
    + intros x Hx. now apply numeric_classes in Hx.
    + simpl. now rewrite Hc, Hs.
Qed.

Lemma rstrip_kept item :
  ends_nonblank Py.isspace item = true -> Py.rstrip item = item.
Proof. apply rstrip_ends_nonblank. Qed.

Lemma decode_encode_line p item :
  ends_nonblank Py.isspace item = true ->
  decode_line (encode_line (p, item)) = inr (p, item).
Proof.
  intros He. rewrite decode_encode_line_rstrip; rewrite (rstrip_kept _ He).
  - reflexivity.
  - now destruct item.
Qed.

(** ** The file: lines written and lines read *)

Lemma not_line_break_split s :
  all_chars not_line_break s = (all_chars not_lf s && all_chars not_cr s)%bool.
Proof.
  induction s as [|c s IH]; simpl; [reflexivity|]. rewrite IH.
  unfold not_line_break, not_lf, not_cr.
  destruct (Ascii.eqb c Py.LF), (Ascii.eqb c Py.CR),
    (all_chars (fun c => negb (Ascii.eqb c Py.LF)) s),
    (all_chars (fun c => negb (Ascii.eqb c Py.CR)) s); reflexivity.
Qed.

Lemma universal_newlines_id s :
  all_chars not_cr s = true -> Py.universal_newlines s = s.
Proof.
  induction s as [|c s IH]; [reflexivity|]. intros H. simpl in H.
  apply andb_true_iff in H as [Hc Hs]. unfold not_cr in Hc.
  apply negb_true_iff in Hc.
  change (Py.universal_newlines (String c s))
    with (if Ascii.eqb c Py.CR
          then match s with
               | String d s'' =>
                   if Ascii.eqb d Py.LF
                   then String Py.LF (Py.universal_newlines s'')
                   else String Py.LF (Py.universal_newlines s)
               | EmptyString => String Py.LF EmptyString
               end
          else String c (Py.universal_newlines s)).
  now rewrite Hc, (IH Hs).
Qed.

Lemma universal_newlines_no_cr s :
  all_chars not_cr (Py.universal_newlines s) = true.
Proof.
  assert (G : forall n s, (String.length s <= n)%nat ->
                          all_chars not_cr (Py.universal_newlines s) = true).
  { induction n as [|n IH]; intros [|c t] Hn; try reflexivity;
      [simpl in Hn; lia|].
    simpl in Hn. simpl Py.universal_newlines.
    destruct (Ascii.eqb c Py.CR) eqn:Ec.
    - destruct t as [|d t'']; [reflexivity|].
      destruct (Ascii.eqb d Py.LF); simpl all_chars.
      + apply IH. simpl in Hn. lia.
      + change (all_chars not_cr (Py.universal_newlines (String d t'')) = true).
        apply IH. lia.
    - simpl all_chars. unfold not_cr at 1. rewrite Ec. simpl.
      apply IH. lia. }
  now apply (G (String.length s)).
Qed.

Lemma lines_app_line l rest :
  all_chars not_lf l = true ->
  Py.lines (l ++ String Py.LF rest) = (l ++ String Py.LF "") :: Py.lines rest.
Proof.
  induction l as [|c l IH]; simpl; [reflexivity|].
  intros H. apply andb_true_iff in H as [Hc Hl]. unfold not_lf in Hc.
  apply negb_true_iff in Hc. now rewrite Hc, (IH Hl).
Qed.

Lemma lines_all_chars q s :
  all_chars q s = true -> Forall (fun l => all_chars q l = true) (Py.lines s).
Proof.
  induction s as [|c s IH]; simpl; [constructor|].
  intros H. apply andb_true_iff in H as [Hc Hs]. specialize (IH Hs).
  destruct (Ascii.eqb c Py.LF) eqn:Ec.
  - apply Ascii.eqb_eq in Ec. subst c.
    constructor; [simpl; now rewrite Hc|exact IH].
  - destruct (Py.lines s) as [|l ls]; constructor; simpl.
    + now rewrite Hc.
    + constructor.
    + inversion IH; subst. now rewrite Hc.
    + now inversion IH.
Qed.

Lemma lines_shape s : Forall line_shape (Py.lines s).
Proof.
  induction s as [|c s IH]; simpl; [constructor|].
  destruct (Ascii.eqb c Py.LF) eqn:Ec.
  - constructor; [|exact IH]. exists "". split; [reflexivity|now right].
  - assert (Hc : not_lf c = true) by (unfold not_lf; now rewrite Ec).
    destruct (Py.lines s) as [|l ls].
    + constructor; [|constructor]. exists (String c ""). split; [|now left].
      simpl. now rewrite Hc.
    + inversion IH as [|? ? (body & Hb & Hl) Hls]; subst.
      constructor; [|exact Hls]. exists (String c body). split.
      * simpl. now rewrite Hc, Hb.
      * destruct Hl as [->| ->]; [now left|now right].
Qed.

Lemma encode_line_split p item :
  encode_line (p, item)
  = (Py.str p ++ String Py.SP item) ++ String Py.LF "".
Proof. unfold encode_line. simpl. now rewrite append_assoc. Qed.

Lemma encode_line_body p item :
  all_chars not_line_break item = true ->
  all_chars not_line_break (Py.str p ++ String Py.SP item) = true.
Proof.
  intros Hi. rewrite all_chars_app. apply andb_true_iff. split.
  - destruct (str_numeric p) as (c & s & E & Hc & Hs). rewrite E.
    apply all_chars_weaken with (q := numeric).
    + intros x Hx. now apply numeric_classes in Hx.
    + simpl. now rewrite Hc, Hs.
  - simpl. now rewrite Hi.
Qed.

Lemma safe_breakless items : safe_entries items -> breakless items.
Proof.
  apply Forall_impl. intros e H. now apply line_safe_inv in H.
Qed.

Lemma encode_all_no_cr items :
  breakless items -> all_chars not_cr (encode_all items) = true.
Proof.
  induction 1 as [|[p item] items Hs _ IH]; [reflexivity|].
  simpl in Hs.
  change (encode_all ((p, item) :: items))
    with (encode_line (p, item) ++ encode_all items).
  rewrite all_chars_app, IH, andb_true_r, encode_line_split, all_chars_app.
  pose proof (encode_line_body p item Hs) as Hb.
  rewrite not_line_break_split in Hb. apply andb_true_iff in Hb as [_ Hb].
  now rewrite Hb.
Qed.

Lemma lines_encode_all items :
  breakless items -> Py.lines (encode_all items) = map encode_line items.
Proof.
  induction 1 as [|[p item] items Hs _ IH]; [reflexivity|].
  simpl in Hs.
  change (encode_all ((p, item) :: items))
    with (encode_line (p, item) ++ encode_all items).
  rewrite encode_line_split, append_assoc. simpl (String Py.LF "" ++ _).
  rewrite lines_app_line, IH; [now rewrite <- encode_line_split|].
  pose proof (encode_line_body p item Hs) as Hb.
  rewrite not_line_break_split in Hb. now apply andb_true_iff in Hb as [Hb _].
Qed.

Lemma pushable_inv item :
  pushable item = true ->
  all_chars not_line_break item = true /\ Py.rstrip item <> "".
Proof.
  unfold pushable. intros H. apply andb_true_iff in H as [Hb Hr].
  split; [exact Hb|]. apply negb_true_iff in Hr.
  now apply String.eqb_neq in Hr.
Qed.

Lemma decode_lines_encode items :
  Forall (fun e => Py.rstrip (item_of e) <> "") items ->
  decode_lines (map encode_line items) = inr (map as_read items).
Proof.
  induction 1 as [|[p item] items Hs _ IH]; [reflexivity|].
  simpl in Hs. simpl.
  now rewrite (decode_encode_line_rstrip p item Hs), IH.
Qed.

(** What the pushes wrote is read back up to the blanks at the end of the
    items. *)
Lemma read_pushed items :
  Forall (fun e => pushable (item_of e) = true) items ->
  decodes_to (Some (encode_all items)) (map as_read items).
Proof.
  intros Hs.
  assert (Hb : breakless items).
  { eapply Forall_impl; [|exact Hs]. intros e H.
    now apply pushable_inv in H. }
  assert (Hr : Forall (fun e => Py.rstrip (item_of e) <> "") items).
  { eapply Forall_impl; [|exact Hs]. intros e H.
    now apply pushable_inv in H. }
  unfold decodes_to, read_items, bind, open_r_lines.
  rewrite universal_newlines_id by now apply encode_all_no_cr.
  now rewrite lines_encode_all, decode_lines_encode.
Qed.

Lemma line_safe_pushable item : line_safe item = true -> pushable item = true.
Proof.
  intros H. apply line_safe_inv in H as [He Hb]. unfold pushable.
  rewrite Hb, (rstrip_kept _ He). simpl. apply negb_true_iff.
  apply String.eqb_neq. now destruct item.
Qed.

Lemma as_read_safe items : safe_entries items -> map as_read items = items.
Proof.
  induction 1 as [|[p item] items Hs _ IH]; [reflexivity|].
  apply line_safe_inv in Hs as [He _]. simpl in He. simpl. rewrite IH.
  unfold as_read, priority_of, item_of. simpl. now rewrite (rstrip_kept _ He).
Qed.

(** What the writing loop wrote is what the reading loop reads. *)
Lemma read_written items :
  safe_entries items -> decodes_to (Some (encode_all items)) items.
Proof.
  intros Hs. rewrite <- (as_read_safe items Hs) at 2.
  apply read_pushed. eapply Forall_impl; [|exact Hs].
  intros e. apply line_safe_pushable.
Qed.

Lemma decoded_line_safe l p item :
  line_shape l -> all_chars not_cr l = true ->
  decode_line l = inr (p, item) -> line_safe item = true.
Proof.
  intros (body & Hlf & Hl) Hcr. unfold decode_line, Py.split_space_1.
  assert (Hs : Py.strip l = Py.strip body).
  { destruct Hl as [->| ->]; [reflexivity|].
    now apply strip_app_blank. }
  assert (Hb : all_chars not_line_break body = true).
  { rewrite not_line_break_split, Hlf. simpl.
    destruct Hl as [->| ->]; [exact Hcr|].
    rewrite all_chars_app in Hcr. now apply andb_true_iff in Hcr as [Hcr _]. }
  rewrite Hs. clear Hs Hl Hcr Hlf l.
  pose proof (strip_all_chars Py.isspace _ _ Hb) as Hq.
  pose proof (rstrip_empty_or_ends Py.isspace (Py.lstrip_with Py.isspace body))
    as He.
  fold (Py.strip_with Py.isspace body) in He. fold Py.strip in He.
  fold Py.strip in Hq.
  destruct (Py.cut_space (Py.strip body)) as [[a b]|] eqn:Ec; [|discriminate].
  apply cut_space_inv in Ec. rewrite Ec in He, Hq.
  destruct (Py.int a); [|discriminate]. intros [= _ ->].
  unfold line_safe. apply andb_true_iff. split.
  - destruct He as [He|He]; [now destruct a|].
    rewrite ends_nonblank_app in He. destruct item; [discriminate He|exact He].
  - rewrite all_chars_app in Hq. apply andb_true_iff in Hq as [_ Hq].
    change (all_chars not_line_break (String Py.SP item))
      with (not_line_break Py.SP && all_chars not_line_break item)%bool in Hq.
    now apply andb_true_iff in Hq as [_ Hq].
Qed.

Lemma decoded_lines_safe ls : forall items,
  Forall line_shape ls -> Forall (fun l => all_chars not_cr l = true) ls ->
  decode_lines ls = inr items -> safe_entries items.
Proof.
  induction ls as [|l ls IH]; intros items Hsh Hcr; simpl.
  - intros [= <-]. constructor.
  - inversion Hsh; subst. inversion Hcr; subst.
    destruct (decode_line l) as [e|[p item]] eqn:El; [discriminate|].
    destruct (decode_lines ls) as [e|rest] eqn:Er; [discriminate|].
    intros [= <-]. constructor.
    + now apply (decoded_line_safe l p item).
    + now apply IH.
Qed.

Lemma decodes_to_inv st items :
  decodes_to st items ->
  exists txt, st = Some txt /\
    decode_lines (Py.lines (Py.universal_newlines txt)) = inr items.
Proof.
  unfold decodes_to, read_items, bind, open_r_lines.
  destruct st as [txt|]; [|discriminate]. intros H.
  exists txt. split; [reflexivity|].
  destruct (decode_lines _) as [e|xs]; simpl in H; [discriminate|].
  now injection H as ->.
Qed.

(** The items the reading loop yields are those a line carries unchanged. *)
Lemma decoded_safe st items : decodes_to st items -> safe_entries items.
Proof.
  intros H. apply decodes_to_inv in H as (txt & _ & H).
  eapply decoded_lines_safe; [| |exact H].
  - apply lines_shape.
  - apply lines_all_chars, universal_newlines_no_cr.
Qed.

(** ** Lists: the first minimum, removal and the stable sort *)

Section ByKey.
Context {A : Type} (key : A -> Z).

Lemma min_from_cases xs : forall best,
  (Py.min_from key best xs = best /\ Forall (fun y => key best <= key y) xs)
  \/ exists before e after,
       xs = (before ++ e :: after)%list /\ Py.min_from key best xs = e /\
       key e < key best /\
       Forall (fun y => key e < key y) before /\
       Forall (fun y => key e <= key y) after.
Proof.
  induction xs as [|x xs IH]; intros best; simpl.
  - left. split; [reflexivity|constructor].
  - destruct (Z.ltb_spec (key x) (key best)) as [Hlt|Hge].
    + right. destruct (IH x) as [[E F]|(b & e & a & -> & E & Hk & Fb & Fa)].
      * exists [], x, xs. split; [reflexivity|]. split; [exact E|].
        split; [exact Hlt|]. split; [constructor|exact F].
      * exists (x :: b), e, a. split; [reflexivity|]. split; [exact E|].
        split; [lia|]. split; [constructor; assumption|exact Fa].
    + destruct (IH best) as [[E F]|(b & e & a & -> & E & Hk & Fb & Fa)].
      * left. split; [exact E|]. constructor; [exact Hge|exact F].
      * right. exists (x :: b), e, a. split; [reflexivity|].
        split; [exact E|]. split; [exact Hk|].
        split; [constructor; [lia|exact Fb]|exact Fa].
Qed.

(** [min] picks the first entry of least key. *)
Lemma min_from_first x xs :
  exists before e after,
    x :: xs = (before ++ e :: after)%list /\ Py.min_from key x xs = e /\
    Forall (fun y => key e < key y) before /\
    Forall (fun y => key e <= key y) after.
Proof.
  destruct (min_from_cases xs x) as [[E F]|(b & e & a & -> & E & Hk & Fb & Fa)].
  - exists [], x, xs. split; [reflexivity|]. split; [exact E|].
    split; [constructor|exact F].
  - exists (x :: b), e, a. split; [reflexivity|]. split; [exact E|].
    split; [constructor; [exact Hk|exact Fb]|exact Fa].
Qed.

Lemma insert_by_perm x xs : Permutation (Py.insert_by key x xs) (x :: xs).
Proof.
  induction xs as [|y ys IH]; simpl; [reflexivity|].
  destruct (key x <=? key y); [reflexivity|].
  rewrite IH. apply perm_swap.
Qed.

Lemma sort_by_perm xs : Permutation (Py.sort_by key xs) xs.
Proof.
  induction xs as [|x xs IH]; simpl; [reflexivity|].
  now rewrite insert_by_perm, IH.
Qed.

Lemma insert_by_ascending x xs :
  ascending key xs -> ascending key (Py.insert_by key x xs).
Proof.
  unfold ascending. induction xs as [|y ys IH]; simpl; intros H.
  - repeat constructor.
  - destruct (Z.leb_spec (key x) (key y)) as [Hle|Hgt].
    + constructor; [exact H|constructor; exact Hle].
    + inversion H as [|? ? Hs Hh]; subst. constructor; [now apply IH|].
      destruct ys as [|z zs]; simpl.
      * constructor. lia.
      * destruct (key x <=? key z); constructor; [lia|].
        now inversion Hh.
Qed.

Lemma sort_by_ascending xs : ascending key (Py.sort_by key xs).
Proof.
  induction xs as [|x xs IH]; simpl; [constructor|].
  now apply insert_by_ascending.
Qed.

(** Stability: the entries of one key keep their order. *)
Lemma insert_by_stable k x xs :
  filter (fun e => key e =? k) (Py.insert_by key x xs)
  = filter (fun e => key e =? k) (x :: xs).
Proof.
  induction xs as [|y ys IH]; [reflexivity|]. simpl Py.insert_by.
  destruct (Z.leb_spec (key x) (key y)) as [Hle|Hgt]; [reflexivity|].
  simpl filter in *. rewrite IH.
  destruct (Z.eqb_spec (key y) k), (Z.eqb_spec (key x) k);
    try reflexivity; lia.
Qed.

Lemma sort_by_stable k xs :
  filter (fun e => key e =? k) (Py.sort_by key xs)
  = filter (fun e => key e =? k) xs.
Proof.
  induction xs as [|x xs IH]; [reflexivity|]. simpl Py.sort_by.
  rewrite insert_by_stable. simpl. now rewrite IH.
Qed.

Lemma insert_by_head x xs :
  Forall (fun y => key x <= key y) xs -> Py.insert_by key x xs = x :: xs.
Proof.
  destruct xs as [|y ys]; [reflexivity|]. intros H. inversion H; subst.
  simpl. destruct (Z.leb_spec (key x) (key y)); [reflexivity|lia].
Qed.

Lemma sort_by_fixed xs : ascending key xs -> Py.sort_by key xs = xs.
Proof.
  unfold ascending. induction xs as [|x xs IH]; [reflexivity|].
  intros H. inversion H as [|? ? Hs Hh]; subst. simpl. rewrite (IH Hs).
  destruct xs as [|y ys]; [reflexivity|]. inversion Hh; subst. simpl.
  destruct (Z.leb_spec (key x) (key y)); [reflexivity|lia].
Qed.

(** The first entry of least key is the head of the sorted list, and the
    rest is the sorted remainder. *)
Lemma sort_by_first_min before e after :
  Forall (fun y => key e < key y) before ->
  Forall (fun y => key e <= key y) after ->
  Py.sort_by key (before ++ e :: after)%list
  = e :: Py.sort_by key (before ++ after)%list.
Proof.
  intros Fb Fa. induction Fb as [|x before Hx _ IH]; simpl.
  - apply insert_by_head.
    eapply Permutation_Forall; [symmetry; apply sort_by_perm|exact Fa].
  - rewrite IH. simpl. destruct (Z.leb_spec (key x) (key e)); [lia|].
    reflexivity.
Qed.

Lemma insert_by_map (f : A -> A) x xs :
  (forall y, key (f y) = key y) ->
  Py.insert_by key (f x) (map f xs) = map f (Py.insert_by key x xs).
Proof.
  intros Hf. induction xs as [|y ys IH]; [reflexivity|].
  simpl. rewrite !Hf, IH. now destruct (key x <=? key y).
Qed.

(** Sorting commutes with a change of the entries that keeps their key. *)
Lemma sort_by_map (f : A -> A) xs :
  (forall y, key (f y) = key y) ->
  Py.sort_by key (map f xs) = map f (Py.sort_by key xs).
Proof.
  intros Hf. induction xs as [|x xs IH]; [reflexivity|].
  simpl. now rewrite IH, insert_by_map.
Qed.
End ByKey.

Lemma remove_first_min (before after : list entry) e :
  Forall (fun y => priority_of e < priority_of y) before ->
  Py.remove entry_eqb e (before ++ e :: after)%list
  = Some (before ++ after)%list.
Proof.
  induction 1 as [|y before Hy _ IH]; simpl.
  - unfold entry_eqb. now rewrite Z.eqb_refl, String.eqb_refl.
  - unfold entry_eqb at 1. unfold priority_of in Hy.
    destruct (Z.eqb_spec (fst y) (fst e)) as [E|_]; [lia|]. simpl.
    now rewrite IH.
Qed.

Lemma nth_error_without {A} (before after : list A) e j :
  nth_error (before ++ after)%list j
  = nth_error (before ++ e :: after)%list
      (if (j <? List.length before)%nat then j else S j).
Proof.
  destruct (Nat.ltb_spec j (List.length before)) as [Hlt|Hge].
  - now rewrite !nth_error_app1.
  - rewrite !nth_error_app2 by lia.
    now replace (S j - List.length before)%nat
      with (S (j - List.length before)) by lia.
Qed.

(** ** [pop] and [peek] *)

(** What [pop] does on a store that decodes to at least one entry. *)
Lemma pop_decoded st items :
  decodes_to st items -> items <> [] ->
  exists before e after,
    items = (before ++ e :: after)%list /\
    Forall (fun y => priority_of e < priority_of y) before /\
    Forall (fun y => priority_of e <= priority_of y) after /\
    pop st = (Some (encode_all (before ++ after)%list), inr (item_of e)).
Proof.
  intros Hd Hne. destruct items as [|x xs]; [easy|].
  destruct (min_from_first priority_of x xs)
    as (before & e & after & E & Hm & Fb & Fa).
  exists before, e, after. repeat split; try assumption.
  unfold pop, bind. rewrite Hd. unfold highest_priority. rewrite Hm, E.
  now rewrite (remove_first_min _ _ _ Fb).
Qed.

Lemma safe_entries_without before e after :
  safe_entries (before ++ e :: after)%list ->
  safe_entries (before ++ after)%list.
Proof.
  unfold safe_entries. rewrite !Forall_app. intros [Hb Ha].
  split; [exact Hb|now inversion Ha].
Qed.

(** C1. On a store that decodes to at least one entry, [pop] returns the
    item of the first entry of least priority (every entry before it has a
    strictly greater priority, every entry after it a greater or equal
    one), writes the store without that one occurrence, and the store it
    wrote decodes to exactly the other entries. *)
Theorem pop_returns_first_minimum st items :
  decodes_to st items -> items <> [] ->
  exists before e after,
    items = (before ++ e :: after)%list /\
    Forall (fun y => priority_of e < priority_of y) before /\
    Forall (fun y => priority_of e <= priority_of y) after /\
    pop st = (Some (encode_all (before ++ after)%list), inr (item_of e)) /\
    decodes_to (Some (encode_all (before ++ after)%list))
               (before ++ after)%list.
Proof.
  intros Hd Hne.
  destruct (pop_decoded st items Hd Hne) as (b & e & a & E & Fb & Fa & Hp).
  exists b, e, a. repeat split; try assumption.
  apply read_written. apply (safe_entries_without b e a).
  rewrite <- E. now apply (decoded_safe st).
Qed.

Lemma pop_returns_first_minimum_witness :
  exists before e after,
    [(7, "C"); (5, "A"); (5, "B")] = (before ++ e :: after)%list /\
    Forall (fun y => priority_of e < priority_of y) before /\
    Forall (fun y => priority_of e <= priority_of y) after /\
    pop (Some ("7 C" ++ nl ++ "5 A" ++ nl ++ "5 B" ++ nl))
    = (Some (encode_all (before ++ after)%list), inr (item_of e)) /\
    decodes_to (Some (encode_all (before ++ after)%list))
               (before ++ after)%list.
Proof.
  apply (pop_returns_first_minimum
           (Some ("7 C" ++ nl ++ "5 A" ++ nl ++ "5 B" ++ nl))
           [(7, "C"); (5, "A"); (5, "B")]).
  - reflexivity.
  - discriminate.
Defined.

(** C10. After [pop] on a store that decodes to at least one entry, the
    store decodes to the old entries without the one at some position [i]:
    the entries before [i] stay where they were, those after it move up by
    one, and each keeps its priority and its item. *)
Theorem pop_keeps_the_rest st items :
  decodes_to st items -> items <> [] ->
  exists i rest,
    (i < List.length items)%nat /\
    decodes_to (fst (pop st)) rest /\
    rest = (firstn i items ++ skipn (S i) items)%list /\
    List.length rest = pred (List.length items) /\
    forall j, nth_error rest j
              = nth_error items (if (j <? i)%nat then j else S j).
Proof.
  intros Hd Hne.
  destruct (pop_decoded st items Hd Hne) as (b & e & a & E & Fb & Fa & Hp).
  exists (List.length b), (b ++ a)%list. rewrite Hp. simpl fst. subst items.
  split; [rewrite length_app; simpl; lia|].
  split; [apply read_written, (safe_entries_without b e a),
          (decoded_safe st), Hd|].
  split.
  { rewrite firstn_app, firstn_all, Nat.sub_diag. simpl firstn.
    rewrite app_nil_r. f_equal.
    replace (S (List.length b)) with (List.length (b ++ [e])%list)
      by (rewrite length_app; simpl; lia).
    replace (b ++ e :: a)%list with ((b ++ [e]) ++ a)%list
      by (now rewrite <- app_assoc).
    now rewrite skipn_app, skipn_all, Nat.sub_diag. }
  split; [rewrite !length_app; simpl; lia|].
  intros j. apply nth_error_without.
Qed.

Lemma pop_keeps_the_rest_witness :
  exists i rest,
    (i < List.length [(7, "C"); (5, "A"); (5, "B")])%nat /\
    decodes_to (fst (pop (Some ("7 C" ++ nl ++ "5 A" ++ nl ++ "5 B" ++ nl))))
               rest /\
    rest = (firstn i [(7, "C"); (5, "A"); (5, "B")]
            ++ skipn (S i) [(7, "C"); (5, "A"); (5, "B")])%list /\
    List.length rest = pred (List.length [(7, "C"); (5, "A"); (5, "B")]) /\
    forall j, nth_error rest j
              = nth_error [(7, "C"); (5, "A"); (5, "B")]
                  (if (j <? i)%nat then j else S j).
Proof.
  apply (pop_keeps_the_rest
           (Some ("7 C" ++ nl ++ "5 A" ++ nl ++ "5 B" ++ nl))
           [(7, "C"); (5, "A"); (5, "B")]).
  - reflexivity.
  - discriminate.
Defined.

(** C3, as the code has it.  Every reading method opens the file for
    reading without looking whether it exists: on a missing store [pop],
    [peek] and the reading loop fail with [FileNotFoundError] and create
    nothing, while on a store that exists and is empty [pop] and [peek]
    fail with [IndexError]. *)
Theorem missing_store_is_file_not_found :
  read_items None = (None, inl FileNotFoundError) /\
  pop None = (None, inl FileNotFoundError) /\
  peek None = (None, inl FileNotFoundError) /\
  pop (Some "") = (Some "", inl IndexError) /\
  peek (Some "") = (Some "", inl IndexError).
Proof. repeat split. Qed.

(** C3 as stated fails: on a missing store the reading loop does not yield
    the empty sequence, and neither [pop] nor [peek] signals the empty
    queue. *)
Lemma missing_store_not_empty_queue :
  snd (read_items None) <> inr [] /\
  snd (pop None) <> inl IndexError /\
  snd (peek None) <> inl IndexError.
Proof. repeat split; discriminate. Qed.

(** ** [push] and the drain *)

Lemma push_appends item priority st :
  push item priority st
  = (Some (content st ++ encode_line (priority, item)), inr tt).
Proof. destruct st; reflexivity. Qed.

Lemma encode_all_app xs ys :
  encode_all (xs ++ ys)%list = encode_all xs ++ encode_all ys.
Proof.
  induction xs as [|x xs IH]; simpl; [reflexivity|].
  fold (encode_all (xs ++ ys)%list). fold (encode_all xs).
  now rewrite IH, append_assoc.
Qed.

Lemma push_all_appends calls : forall st,
  push_all calls st
  = (match calls with
     | [] => st
     | _ => Some (content st ++ encode_all (map entry_of_call calls))
     end, inr tt).
Proof.
  induction calls as [|[item priority] calls IH]; intros st; [reflexivity|].
  simpl push_all. unfold bind. rewrite push_appends, IH. f_equal.
  destruct calls as [|c calls].
  - simpl. now rewrite append_nil_r.
  - simpl content. f_equal. rewrite append_assoc. f_equal.
Qed.

Lemma pop_until_empty_sorted fuel : forall items,
  safe_entries items -> (List.length items < fuel)%nat ->
  pop_until_empty fuel (Some (encode_all items))
  = Some (Some "", inr (map item_of (Py.sort_by priority_of items))).
Proof.
  induction fuel as [|fuel IH]; intros items Hs Hf; [lia|].
  pose proof (read_written items Hs) as Hd. simpl pop_until_empty.
  destruct items as [|x xs].
  - reflexivity.
  - destruct (pop_decoded _ _ Hd) as (b & e & a & E & Fb & Fa & Hp);
      [discriminate|].
    rewrite Hp, E, (sort_by_first_min priority_of b e a Fb Fa).
    rewrite IH; [reflexivity| |].
    + apply (safe_entries_without b e a). now rewrite <- E.
    + apply (f_equal (@List.length entry)) in E.
      rewrite length_app in *. simpl in *. lia.
Qed.

Lemma pop_until_empty_decoded fuel st items :
  decodes_to st items -> items <> [] -> (List.length items < fuel)%nat ->
  pop_until_empty fuel st
  = Some (Some "", inr (map item_of (Py.sort_by priority_of items))).
Proof.
  intros Hd Hne Hf. destruct fuel as [|fuel]; [lia|].
  destruct (pop_decoded _ _ Hd Hne) as (b & e & a & E & Fb & Fa & Hp).
  simpl pop_until_empty.
  rewrite Hp, E, (sort_by_first_min priority_of b e a Fb Fa).
  rewrite pop_until_empty_sorted; [reflexivity| |].
  - apply (safe_entries_without b e a). rewrite <- E.
    now apply (decoded_safe st).
  - apply (f_equal (@List.length entry)) in E.
    rewrite length_app in *. simpl in *. lia.
Qed.

(** Pushes of pushable items on an existing empty store, then pops until
    the queue is empty. *)
Lemma drain_pushed calls :
  Forall (fun c => pushable (fst c) = true) calls ->
  exists st,
    push_all calls (Some "") = (st, inr tt) /\
    forall fuel, (List.length calls < fuel)%nat ->
      pop_until_empty fuel st
      = Some (Some "",
              inr (map (fun e => Py.rstrip (item_of e))
                     (Py.sort_by priority_of (map entry_of_call calls)))).
Proof.
  intros Hs. rewrite push_all_appends. eexists. split; [reflexivity|].
  intros fuel Hf. destruct calls as [|c calls].
  - destruct fuel; [simpl in Hf; lia|reflexivity].
  - set (pushed := map entry_of_call (c :: calls)).
    assert (Hp : Forall (fun e => pushable (item_of e) = true) pushed).
    { unfold pushed. rewrite Forall_map.
      eapply Forall_impl; [|exact Hs]. now intros [i p]. }
    change (content (Some "") ++ encode_all pushed) with (encode_all pushed).
    rewrite (pop_until_empty_decoded fuel _ _ (read_pushed pushed Hp)).
    + rewrite (sort_by_map priority_of as_read) by reflexivity.
      now rewrite map_map.
    + discriminate.
    + unfold pushed. now rewrite !length_map.
Qed.

(** C2, for the items a line can carry.  When every pushed item holds no
    line feed or carriage return and has a character that is not a blank,
    then from an existing empty store the pushes followed by pops until the
    queue is empty return the pushed items, each without the blanks at its
    end, sorted by priority: the priorities never decrease, the result is a
    rearrangement of the pushed entries, and the entries of one priority
    come out in the order they were pushed.  When moreover no item ends in
    a blank, the items come out exactly as pushed.  A first push on a
    missing store creates it, so that one push or more leave the same store
    whether it was missing or empty. *)
Theorem push_then_pop_is_stable_priority_order calls :
  Forall (fun c => pushable (fst c) = true) calls ->
  let pushed := map entry_of_call calls in
  let popped := Py.sort_by priority_of pushed in
  (exists st,
     push_all calls (Some "") = (st, inr tt) /\
     forall fuel, (List.length calls < fuel)%nat ->
       pop_until_empty fuel st
       = Some (Some "", inr (map (fun e => Py.rstrip (item_of e)) popped))) /\
  (Forall (fun c => ends_nonblank Py.isspace (fst c) = true) calls ->
   drains_in_priority_order calls) /\
  (calls <> [] -> push_all calls None = push_all calls (Some "")) /\
  ascending priority_of popped /\
  Permutation popped pushed /\
  forall p, filter (fun e => priority_of e =? p) popped
            = filter (fun e => priority_of e =? p) pushed.
Proof.
  intros Hs pushed popped.
  split; [|split; [|split; [|split; [|split]]]].
  - apply (drain_pushed calls Hs).
  - intros He. destruct (drain_pushed calls Hs) as (st & Hpush & Hpop).
    exists st. split; [exact Hpush|]. intros fuel Hf.
    rewrite (Hpop fuel Hf). do 3 f_equal. apply map_ext_in.
    intros e Hin. apply rstrip_kept.
    apply (Permutation_in _ (sort_by_perm priority_of _)) in Hin.
    apply in_map_iff in Hin as ([i p] & <- & Hin).
    rewrite Forall_forall in He. apply (He _ Hin).
  - intros Hne. rewrite !push_all_appends. now destruct calls.
  - apply sort_by_ascending.
  - apply sort_by_perm.
  - intros p. apply sort_by_stable.
Qed.

Lemma push_then_pop_is_stable_priority_order_witness :
  let calls := [("A", 3); ("B", 1); ("C  ", 2); (" D", 1)] in
  let pushed := map entry_of_call calls in
  let popped := Py.sort_by priority_of pushed in
  (exists st,
     push_all calls (Some "") = (st, inr tt) /\
     forall fuel, (List.length calls < fuel)%nat ->
       pop_until_empty fuel st
       = Some (Some "", inr (map (fun e => Py.rstrip (item_of e)) popped))) /\
  (Forall (fun c => ends_nonblank Py.isspace (fst c) = true) calls ->
   drains_in_priority_order calls) /\
  (calls <> [] -> push_all calls None = push_all calls (Some "")) /\
  ascending priority_of popped /\
  Permutation popped pushed /\
  forall p, filter (fun e => priority_of e =? p) popped
            = filter (fun e => priority_of e =? p) pushed.
Proof.
  apply (push_then_pop_is_stable_priority_order
           [("A", 3); ("B", 1); ("C  ", 2); (" D", 1)]).
  repeat constructor.
Defined.

(** C2 as stated, for every sequence of pushes, fails: after
    [push("a", 2)] and [push("", 1)] the store holds the line ["1 "], which
    the reading loop of [pop] cannot split, so that no item comes out at
    all. *)
Lemma empty_item_blocks_the_queue :
  let st := Some ("2 a" ++ nl ++ "1 " ++ nl) in
  push_all [("a", 2); ("", 1)] (Some "") = (st, inr tt) /\
  pop st = (st, inl (ValueError NotEnoughValues)) /\
  ~ drains_in_priority_order [("a", 2); ("", 1)].
Proof.
  split; [reflexivity|]. split; [reflexivity|].
  intros (st & Hpush & Hpop). injection Hpush as <-.
  specialize (Hpop 3%nat). simpl List.length in Hpop.
  assert (H : (2 < 3)%nat) by lia. specialize (Hpop H).
  vm_compute in Hpop. discriminate Hpop.
Qed.

Lemma append_length (a b : string) :
  String.length (a ++ b) = (String.length a + String.length b)%nat.
Proof. induction a as [|c a IH]; simpl; [reflexivity|now rewrite IH]. Qed.

(** C4, as the code has it.  [push] has no check of the item and no
    [EncodeError]: with a priority that [str] can print, an item that
    holds a line feed is pushed like any other item.  The call returns
    normally and appends the text ["<priority> <item>\n"] to the store,
    which it creates when missing, so that the store is not the one it
    was.  (Failures of the file system are not modelled.) *)
Theorem push_checks_no_item item priority st :
  within_int_limit priority = true ->
  push item priority st
  = (Some (content st ++ Py.str priority ++ " " ++ item ++ nl), inr tt) /\
  fst (push item priority st) <> st.
Proof.
  intros _. rewrite push_appends. split; [reflexivity|].
  simpl fst. destruct st as [t|]; [|discriminate].
  simpl content. intros [= H].
  apply (f_equal String.length) in H. rewrite append_length in H.
  unfold encode_line in H. rewrite append_length in H. simpl in H. lia.
Qed.

Lemma push_checks_no_item_witness :
  within_int_limit 1 = true /\
  push ("a" ++ nl ++ "b") 1 (Some ("5 x" ++ nl))
  = (Some (content (Some ("5 x" ++ nl))
           ++ Py.str 1 ++ " " ++ ("a" ++ nl ++ "b") ++ nl), inr tt) /\
  fst (push ("a" ++ nl ++ "b") 1 (Some ("5 x" ++ nl))) <> Some ("5 x" ++ nl).
Proof.
  split; [reflexivity|].
  apply (push_checks_no_item ("a" ++ nl ++ "b") 1 (Some ("5 x" ++ nl))).
  reflexivity.
Defined.

(** C4 as stated fails: the item ["a\nb"] holds a line feed, and pushing
    it neither fails nor leaves the store as it was. *)
Lemma push_accepts_a_line_feed :
  let item := "a" ++ nl ++ "b" in
  all_chars not_lf item = false /\
  push item 1 (Some "") = (Some ("1 a" ++ nl ++ "b" ++ nl), inr tt) /\
  fst (push item 1 (Some "")) <> Some "".
Proof. repeat split. discriminate. Qed.

(** ** [insert_and_shift_up] *)

(** C5. On a store that decodes, [insert_and_shift_up item target] succeeds
    and writes the stable sort by priority of the old entries, each of
    priority at least [target] raised by one, followed by the new entry
    [(target, item)]: what it writes is in ascending priority, is a
    rearrangement of those entries, and keeps the order of the entries of
    one priority.  On [1 A, 2 B, 3 C] the call with ["D"] and [2] writes
    [1 A, 2 D, 3 B, 4 C]. *)
Theorem insert_and_shift_up_spec st items item target :
  decodes_to st items ->
  let shifted :=
    (map (fun e => (if priority_of e >=? target then priority_of e + 1
                    else priority_of e, item_of e)) items
     ++ [(target, item)])%list in
  exists written,
    insert_and_shift_up item target st = (Some (encode_all written), inr tt) /\
    ascending priority_of written /\
    Permutation written shifted /\
    (forall p, filter (fun e => priority_of e =? p) written
               = filter (fun e => priority_of e =? p) shifted) /\
    insert_and_shift_up "D" 2 (Some ("1 A" ++ nl ++ "2 B" ++ nl ++ "3 C" ++ nl))
    = (Some ("1 A" ++ nl ++ "2 D" ++ nl ++ "3 B" ++ nl ++ "4 C" ++ nl), inr tt).
Proof.
  intros Hd shifted. exists (Py.sort_by priority_of shifted).
  assert (E : map (shift_up target) items
              = map (fun e => (if priority_of e >=? target
                               then priority_of e + 1
                               else priority_of e, item_of e)) items).
  { apply map_ext. now intros [p i]. }
  split; [|split; [|split; [|split]]].
  - unfold insert_and_shift_up, bind. rewrite Hd. unfold write_items.
    unfold open_w_write. now rewrite E.
  - apply sort_by_ascending.
  - apply sort_by_perm.
  - intros p. apply sort_by_stable.
  - reflexivity.
Qed.

Lemma insert_and_shift_up_spec_witness :
  let items := [(3, "C"); (1, "A"); (2, "B")] in
  let shifted :=
    (map (fun e => (if priority_of e >=? 2 then priority_of e + 1
                    else priority_of e, item_of e)) items
     ++ [(2, "D")])%list in
  exists written,
    insert_and_shift_up "D" 2 (Some ("3 C" ++ nl ++ "1 A" ++ nl ++ "2 B" ++ nl))
    = (Some (encode_all written), inr tt) /\
    ascending priority_of written /\
    Permutation written shifted /\
    (forall p, filter (fun e => priority_of e =? p) written
               = filter (fun e => priority_of e =? p) shifted) /\
    insert_and_shift_up "D" 2 (Some ("1 A" ++ nl ++ "2 B" ++ nl ++ "3 C" ++ nl))
    = (Some ("1 A" ++ nl ++ "2 D" ++ nl ++ "3 B" ++ nl ++ "4 C" ++ nl), inr tt).
Proof.
  apply (insert_and_shift_up_spec
           (Some ("3 C" ++ nl ++ "1 A" ++ nl ++ "2 B" ++ nl))
           [(3, "C"); (1, "A"); (2, "B")] "D" 2).
  reflexivity.
Defined.

(** ** [change_priority] *)

Lemma update_items_map target new_priority items :
  update_items target new_priority items
  = (map (retarget target new_priority) items,
     existsb (fun e => String.eqb (item_of e) target) items).
Proof.
  induction items as [|[p i] items IH]; [reflexivity|].
  cbn [update_items map existsb]. rewrite IH. unfold retarget, item_of.
  cbn [snd]. destruct (String.eqb i target); reflexivity.
Qed.

Lemma retarget_safe target new_priority items :
  safe_entries items -> safe_entries (map (retarget target new_priority) items).
Proof.
  unfold safe_entries. rewrite Forall_map. apply Forall_impl.
  intros [p i]. unfold retarget. simpl. now destruct (String.eqb i target).
Qed.

(** C6. On a store that decodes and holds the target item, [change_priority]
    succeeds and writes the entries position by position: an entry whose
    item is the target gets the new priority (every such entry, wherever it
    is), any other entry is written as it was; the store written decodes to
    exactly these entries. *)
Theorem change_priority_updates_every_match st items target new_priority :
  decodes_to st items ->
  (exists e, In e items /\ item_of e = target) ->
  exists updated,
    change_priority target new_priority st
    = (Some (encode_all updated), inr tt) /\
    decodes_to (Some (encode_all updated)) updated /\
    List.length updated = List.length items /\
    forall i e, nth_error items i = Some e ->
      nth_error updated i
      = Some (if String.eqb (item_of e) target
              then (new_priority, item_of e) else e).
Proof.
  intros Hd (e & Hin & He).
  exists (map (retarget target new_priority) items).
  split; [|split; [|split]].
  - unfold change_priority, bind. rewrite Hd, update_items_map.
    replace (existsb _ items) with true; [reflexivity|].
    symmetry. apply existsb_exists. exists e. split; [exact Hin|].
    now apply String.eqb_eq.
  - apply read_written, retarget_safe, (decoded_safe st), Hd.
  - apply length_map.
  - intros i x Hx. now apply (map_nth_error (retarget target new_priority)).
Qed.

Lemma change_priority_updates_every_match_witness :
  exists updated,
    change_priority "A" 9 (Some ("1 A" ++ nl ++ "2 B" ++ nl ++ "3 A" ++ nl))
    = (Some (encode_all updated), inr tt) /\
    decodes_to (Some (encode_all updated)) updated /\
    List.length updated = List.length [(1, "A"); (2, "B"); (3, "A")] /\
    forall i e, nth_error [(1, "A"); (2, "B"); (3, "A")] i = Some e ->
      nth_error updated i
      = Some (if String.eqb (item_of e) "A" then (9, item_of e) else e).
Proof.
  apply (change_priority_updates_every_match
           (Some ("1 A" ++ nl ++ "2 B" ++ nl ++ "3 A" ++ nl))
           [(1, "A"); (2, "B"); (3, "A")] "A" 9).
  - reflexivity.
  - exists (1, "A"). split; [now left|reflexivity].
Defined.

(** C7. On a store that decodes and holds no entry whose item is the
    target, [change_priority] raises its [ValueError] for the missing item
    and the store is the one it was: nothing is written. *)
Theorem change_priority_missing_item st items target new_priority :
  decodes_to st items ->
  (forall e, In e items -> item_of e <> target) ->
  change_priority target new_priority st
  = (st, inl (ValueError (ItemNotFound target))).
Proof.
  intros Hd Hno. unfold change_priority, bind.
  rewrite Hd, update_items_map.
  replace (existsb _ items) with false; [reflexivity|].
  symmetry. apply not_true_is_false. intros H.
  apply existsb_exists in H as (e & Hin & He).
  apply String.eqb_eq in He. now apply (Hno e).
Qed.

Lemma change_priority_missing_item_witness :
  change_priority "Z" 9 (Some ("1 A" ++ nl ++ "2 B" ++ nl))
  = (Some ("1 A" ++ nl ++ "2 B" ++ nl), inl (ValueError (ItemNotFound "Z"))).
Proof.
  apply (change_priority_missing_item
           (Some ("1 A" ++ nl ++ "2 B" ++ nl)) [(1, "A"); (2, "B")] "Z" 9).
  - reflexivity.
  - intros e [<-|[<-|[]]]; discriminate.
Defined.

(** ** [reorder_priorities] *)

Lemma renumber_priorities items : forall k,
  map priority_of (renumber k items)
  = map (fun i => k + Z.of_nat i) (seq 0 (List.length items)).
Proof.
  induction items as [|[p i] items IH]; intros k; [reflexivity|].
  cbn [renumber map List.length seq]. rewrite IH, <- seq_shift, map_map.
  f_equal; [unfold priority_of; simpl; lia|].
  apply map_ext. intros n. lia.
Qed.

Lemma renumber_ascending items : forall k,
  ascending priority_of (renumber k items).
Proof.
  unfold ascending.
  induction items as [|[p i] items IH]; intros k; [constructor|].
  cbn [renumber]. constructor; [apply IH|].
  destruct items as [|[q j] items]; constructor.
  unfold priority_of. simpl. lia.
Qed.

Lemma renumber_twice items : forall k,
  renumber k (renumber k items) = renumber k items.
Proof.
  induction items as [|[p i] items IH]; intros k; [reflexivity|].
  cbn [renumber]. now rewrite IH.
Qed.

Lemma renumber_safe items : forall k,
  safe_entries items -> safe_entries (renumber k items).
Proof.
  unfold safe_entries.
  induction items as [|[p i] items IH]; intros k H; [constructor|].
  inversion H; subst. cbn [renumber]. constructor; [assumption|now apply IH].
Qed.

Lemma sort_by_safe items :
  safe_entries items -> safe_entries (Py.sort_by priority_of items).
Proof.
  unfold safe_entries. intros H.
  eapply Permutation_Forall; [symmetry; apply sort_by_perm|exact H].
Qed.

(** C8. On a store that decodes, [reorder_priorities] succeeds, and a
    second call on the store it wrote succeeds and writes that same store
    again.  The store written by the first call decodes to the stably
    sorted entries renumbered 1, 2, ..., n. *)
Theorem reorder_priorities_idempotent st items :
  decodes_to st items ->
  exists st1,
    reorder_priorities st = (st1, inr tt) /\
    reorder_priorities st1 = (st1, inr tt) /\
    decodes_to st1 (renumber 1 (Py.sort_by priority_of items)) /\
    map priority_of (renumber 1 (Py.sort_by priority_of items))
    = map Z.of_nat (seq 1 (List.length items)).
Proof.
  intros Hd. set (r := renumber 1 (Py.sort_by priority_of items)).
  assert (Hr : decodes_to (Some (encode_all r)) r).
  { apply read_written, renumber_safe, sort_by_safe, (decoded_safe st), Hd. }
  exists (Some (encode_all r)). split; [|split; [|split]].
  - unfold reorder_priorities, bind. now rewrite Hd.
  - unfold reorder_priorities, bind. rewrite Hr. unfold r.
    rewrite (sort_by_fixed priority_of) by apply renumber_ascending.
    now rewrite renumber_twice.
  - exact Hr.
  - unfold r. rewrite renumber_priorities.
    rewrite (Permutation_length (sort_by_perm priority_of items)).
    rewrite <- seq_shift, map_map. apply map_ext. intros n. lia.
Qed.

Lemma reorder_priorities_idempotent_witness :
  exists st1,
    reorder_priorities (Some ("10 A" ++ nl ++ "-2 B" ++ nl ++ "10 C" ++ nl))
    = (st1, inr tt) /\
    reorder_priorities st1 = (st1, inr tt) /\
    decodes_to st1
      (renumber 1 (Py.sort_by priority_of [(10, "A"); (-2, "B"); (10, "C")])) /\
    map priority_of
      (renumber 1 (Py.sort_by priority_of [(10, "A"); (-2, "B"); (10, "C")]))
    = map Z.of_nat (seq 1 (List.length [(10, "A"); (-2, "B"); (10, "C")])).
Proof.
  apply (reorder_priorities_idempotent
           (Some ("10 A" ++ nl ++ "-2 B" ++ nl ++ "10 C" ++ nl))
           [(10, "A"); (-2, "B"); (10, "C")]).
  reflexivity.
Defined.

(** ** The round trip of one entry *)

(** C9, up to the blanks at the end of the item.  When the item has a
    character that is not a blank, decoding the line
    ["<priority> <item>\n"] gives back the priority and the item without
    the blanks at its end, those at its start and inside it kept: the item
    comes back as it was when it does not end in a blank.  When moreover the
    item holds no line feed and no carriage return, a store that holds just
    this line decodes to just this entry. *)
Theorem decode_encode_round_trip priority item :
  Py.rstrip item <> "" ->
  decode_line (Py.str priority ++ " " ++ item ++ nl)
  = inr (priority, Py.rstrip item) /\
  (ends_nonblank Py.isspace item = true -> Py.rstrip item = item) /\
  (all_chars not_line_break item = true ->
   decodes_to (Some (Py.str priority ++ " " ++ item ++ nl))
              [(priority, Py.rstrip item)]).
Proof.
  intros He. split; [|split].
  - apply (decode_encode_line_rstrip priority item He).
  - apply rstrip_kept.
  - intros Hb. pose proof (read_pushed [(priority, item)]) as H.
    unfold encode_all in H. simpl fold_right in H. rewrite append_nil_r in H.
    apply H. constructor; [|constructor].
    unfold pushable, item_of. simpl snd. rewrite Hb. simpl.
    apply negb_true_iff. now apply String.eqb_neq.
Qed.

Lemma decode_encode_round_trip_witness :
  Py.rstrip "  two  words" <> "" /\
  decode_line (Py.str (-12) ++ " " ++ "  two  words" ++ nl)
  = inr (-12, Py.rstrip "  two  words") /\
  (ends_nonblank Py.isspace "  two  words" = true ->
   Py.rstrip "  two  words" = "  two  words") /\
  (all_chars not_line_break "  two  words" = true ->
   decodes_to (Some (Py.str (-12) ++ " " ++ "  two  words" ++ nl))
              [(-12, Py.rstrip "  two  words")]).
Proof.
  split; [discriminate|].
  apply (decode_encode_round_trip (-12) "  two  words"). discriminate.
Defined.

(** C9 as stated fails: the item ["a "] holds no line feed, and the line of
    the entry [(1, "a ")] decodes to the item ["a"], the blank at its end
    lost. *)
Lemma trailing_blank_is_lost :
  all_chars not_lf "a " = true /\
  decode_line (Py.str 1 ++ " " ++ "a " ++ nl) = inr (1, "a") /\
  decode_line (Py.str 1 ++ " " ++ "a " ++ nl) <> inr (1, "a ").
Proof. repeat split. discriminate. Qed.

(** ** Scenarios *)

Example scenario_push_pop :
  exists st,
    push_all [("A", 3); ("B", 1); ("C", 2)] (Some "") = (st, inr tt) /\
    pop_until_empty 4 st = Some (Some "", inr ["B"; "C"; "A"]) /\
    pop (Some "") = (Some "", inl IndexError).
Proof. eexists. repeat split. Qed.

Example scenario_tie :
  pop (Some ("5 A" ++ nl ++ "5 B" ++ nl)) = (Some ("5 B" ++ nl), inr "A").
Proof. reflexivity. Qed.

Example scenario_peek_reads_only :
  peek (Some ("3 A" ++ nl ++ "1 B" ++ nl))
  = (Some ("3 A" ++ nl ++ "1 B" ++ nl), inr "B").
Proof. reflexivity. Qed.

Example scenario_is_empty :
  is_empty (Some "") = (Some "", inr true) /\
  is_empty (Some ("1 B" ++ nl)) = (Some ("1 B" ++ nl), inr false) /\
  is_empty None = (None, inl FileNotFoundError).
Proof. repeat split. Qed.

(** * Further properties of the queue *)

(** ** Reading never writes *)

Lemma read_items_store st : fst (read_items st) = st.
Proof.
  unfold read_items, bind, open_r_lines. destruct st as [txt|]; [|reflexivity].
  now destruct (decode_lines _).
Qed.

Lemma read_items_cases st :
  (exists e, read_items st = (st, inl e)) \/
  (exists items, decodes_to st items).
Proof.
  pose proof (read_items_store st) as H. unfold decodes_to.
  destruct (read_items st) as [st' [e|items]]; simpl in H; subst st'.
  - left. now exists e.
  - right. now exists items.
Qed.

Lemma peek_decoded st items :
  decodes_to st items ->
  peek st = (st, match highest_priority items with
                 | Some e => inr (item_of e)
                 | None => inl IndexError
                 end).
Proof.
  intros Hd. unfold peek, bind. rewrite Hd.
  now destruct (highest_priority items).
Qed.

Lemma pop_result_decoded st items :
  decodes_to st items ->
  snd (pop st) = match highest_priority items with
                 | Some e => inr (item_of e)
                 | None => inl IndexError
                 end.
Proof.
  intros Hd. destruct items as [|x xs].
  - unfold pop, bind. now rewrite Hd.
  - destruct (pop_decoded _ _ Hd) as (b & e & a & E & Fb & Fa & Hp);
      [discriminate|].
    rewrite Hp. simpl.
    destruct (min_from_first priority_of x xs)
      as (b' & e' & a' & E' & Hm & Fb' & Fa').
    rewrite Hm.
    (* both decompositions single out the same entry *)
    assert (Hpop : pop st = (Some (encode_all (b' ++ a')%list),
                             inr (item_of e'))).
    { unfold pop, bind. rewrite Hd. unfold highest_priority.
      rewrite Hm, E'. now rewrite (remove_first_min _ _ _ Fb'). }
    rewrite Hp in Hpop. now injection Hpop as _ ->.
Qed.

(** X1. [peek] never writes, whatever the store, and it returns what [pop]
    would return on that store: the same item or the same exception. *)
Theorem peek_agrees_with_pop st :
  fst (peek st) = st /\ snd (peek st) = snd (pop st).
Proof.
  destruct (read_items_cases st) as [[e He]|[items Hd]].
  - unfold peek, pop, bind. rewrite He. now split.
  - rewrite (peek_decoded _ _ Hd), (pop_result_decoded _ _ Hd). now split.
Qed.

(** X2. The exceptions of the reading loop and of the methods' own checks
    are raised before the file is opened for writing.  When [pop],
    [change_priority], [reorder_priorities] or [insert_and_shift_up] ends
    with an exception, that exception is the one of the reading loop (the
    missing file, a line that does not decode), the [IndexError] of the
    empty queue or the [ValueError] of the missing target, and the store is
    the one it was.  Failures of the writing loop itself are not modelled
    and are not covered. *)
Theorem failed_call_writes_nothing st st' e :
  pop st = (st', inl e) \/
  (exists target new_priority,
     change_priority target new_priority st = (st', inl e)) \/
  reorder_priorities st = (st', inl e) \/
  (exists item target,
     insert_and_shift_up item target st = (st', inl e)) ->
  st' = st /\
  (read_items st = (st, inl e) \/
   e = IndexError \/
   exists target, e = ValueError (ItemNotFound target)).
Proof.
  intros H.
  destruct (read_items_cases st) as [[e0 He]|[items Hd]].
  - unfold pop, change_priority, reorder_priorities, insert_and_shift_up,
      bind in H. rewrite He in H.
    assert (E : st' = st /\ e = e0).
    { destruct H as [H|[(t & np & H)|[H|(i & t & H)]]];
        injection H as <- <-; now split. }
    destruct E as [-> ->]. split; [reflexivity|now left].
  - destruct H as [H|[(t & np & H)|[H|(i & t & H)]]].
    + destruct items as [|x xs].
      * unfold pop, bind in H. rewrite Hd in H. simpl in H.
        injection H as <- <-. split; [reflexivity|]. right. now left.
      * destruct (pop_decoded _ _ Hd) as (b & m & a & _ & _ & _ & Hp);
          [discriminate|].
        rewrite Hp in H. discriminate H.
    + unfold change_priority, bind in H. rewrite Hd in H.
      destruct (update_items t np items) as [u [|]]; [discriminate H|].
      injection H as <- <-. split; [reflexivity|]. right. right.
      now exists t.
    + unfold reorder_priorities, bind in H. rewrite Hd in H. discriminate H.
    + unfold insert_and_shift_up, bind in H. rewrite Hd in H. discriminate H.
Qed.

Lemma failed_call_writes_nothing_witness :
  pop (Some ("oops" ++ nl))
  = (Some ("oops" ++ nl), inl (ValueError NotEnoughValues)) /\
  (Some ("oops" ++ nl) = Some ("oops" ++ nl) /\
   (read_items (Some ("oops" ++ nl))
    = (Some ("oops" ++ nl), inl (ValueError NotEnoughValues)) \/
    ValueError NotEnoughValues = IndexError \/
    exists target, ValueError NotEnoughValues
                   = ValueError (ItemNotFound target))).
Proof.
  split; [reflexivity|].
  apply (failed_call_writes_nothing (Some ("oops" ++ nl))
           (Some ("oops" ++ nl)) (ValueError NotEnoughValues)).
  left. reflexivity.
Defined.

(** ** [is_empty] *)

Lemma lines_nil s : Py.lines s = [] -> s = "".
Proof.
  destruct s as [|c s]; [reflexivity|]. simpl.
  destruct (Ascii.eqb c Py.LF); [discriminate|].
  now destruct (Py.lines s).
Qed.

Lemma universal_newlines_nil s : Py.universal_newlines s = "" -> s = "".
Proof.
  destruct s as [|c s]; [reflexivity|]. simpl.
  destruct (Ascii.eqb c Py.CR); [|discriminate].
  destruct s as [|d s]; [discriminate|].
  now destruct (Ascii.eqb d Py.LF).
Qed.

Lemma decode_lines_length ls : forall items,
  decode_lines ls = inr items -> List.length items = List.length ls.
Proof.
  induction ls as [|l ls IH]; intros items; simpl.
  - now intros [= <-].
  - destruct (decode_line l); [discriminate|].
    destruct (decode_lines ls) as [|xs]; [discriminate|].
    intros [= <-]. simpl. now rewrite (IH xs).
Qed.

(** X3. [is_empty] looks at the text only: on a store that exists it
    answers [True] exactly when the file holds no character at all, and it
    never writes. *)
Theorem is_empty_iff_no_text txt :
  is_empty (Some txt) = (Some txt, inr (String.eqb txt "")).
Proof.
  unfold is_empty, bind, open_r_lines, ret.
  destruct (Py.lines (Py.universal_newlines txt)) as [|l ls] eqn:E.
  - apply lines_nil, universal_newlines_nil in E. now subst txt.
  - destruct txt as [|c txt]; [discriminate E|reflexivity].
Qed.

(** X4. On a store that decodes, [is_empty] answers [True] exactly when
    there is no entry, that is exactly when [pop] raises the [IndexError]
    of the empty queue. *)
Theorem is_empty_agrees_with_pop st items :
  decodes_to st items ->
  (is_empty st = (st, inr true) <-> items = []) /\
  (is_empty st = (st, inr true) <-> snd (pop st) = inl IndexError).
Proof.
  intros Hd.
  assert (H1 : is_empty st = (st, inr true) <-> items = []).
  { destruct (decodes_to_inv _ _ Hd) as (txt & -> & Hl).
    apply decode_lines_length in Hl.
    unfold is_empty, bind, open_r_lines, ret.
    destruct (Py.lines (Py.universal_newlines txt)) as [|l ls];
      destruct items; simpl in Hl; try discriminate Hl; split; try easy. }
  split; [exact H1|]. rewrite H1, (pop_result_decoded _ _ Hd).
  destruct items as [|x xs]; simpl; split; try easy.
Qed.

Lemma is_empty_agrees_with_pop_witness :
  (is_empty (Some ("1 B" ++ nl)) = (Some ("1 B" ++ nl), inr true)
   <-> [(1, "B")] = []) /\
  (is_empty (Some ("1 B" ++ nl)) = (Some ("1 B" ++ nl), inr true)
   <-> snd (pop (Some ("1 B" ++ nl))) = inl IndexError).
Proof.
  apply (is_empty_agrees_with_pop (Some ("1 B" ++ nl)) [(1, "B")]).
  reflexivity.
Defined.

(** ** Lines that do not decode *)

Lemma decode_line_blank l :
  all_chars Py.isspace l = true ->
  decode_line l = inl (ValueError NotEnoughValues).
Proof.
  intros H. unfold decode_line, Py.strip, Py.strip_with.
  now rewrite (lstrip_all_blank _ _ H).
Qed.

Lemma decode_lines_app ls1 : forall xs ls2,
  decode_lines ls1 = inr xs ->
  decode_lines (ls1 ++ ls2)%list
  = match decode_lines ls2 with
    | inl e => inl e
    | inr ys => inr (xs ++ ys)%list
    end.
Proof.
  induction ls1 as [|l ls1 IH]; intros xs ls2; simpl.
  - intros [= <-]. now destruct (decode_lines ls2).
  - destruct (decode_line l) as [|x]; [discriminate|].
    destruct (decode_lines ls1) as [|xs1]; [discriminate|].
    intros [= <-]. rewrite (IH xs1 ls2 eq_refl).
    now destruct (decode_lines ls2).
Qed.

Lemma lines_encode_all_app items rest :
  breakless items ->
  Py.lines (encode_all items ++ rest)
  = (map encode_line items ++ Py.lines rest)%list.
Proof.
  induction 1 as [|[p item] items Hs _ IH]; [reflexivity|].
  simpl in Hs.
  change (encode_all ((p, item) :: items))
    with (encode_line (p, item) ++ encode_all items).
  rewrite append_assoc, encode_line_split.
  rewrite (append_assoc (Py.str p ++ String Py.SP item)).
  simpl (String Py.LF "" ++ _).
  rewrite lines_app_line, IH; [now rewrite <- encode_line_split|].
  pose proof (encode_line_body p item Hs) as Hb.
  rewrite not_line_break_split in Hb. now apply andb_true_iff in Hb as [Hb _].
Qed.

Lemma decode_lines_encode_safe items :
  safe_entries items -> decode_lines (map encode_line items) = inr items.
Proof.
  intros Hs. rewrite decode_lines_encode.
  - now rewrite as_read_safe.
  - eapply Forall_impl; [|exact Hs]. intros e H.
    apply line_safe_pushable in H. now apply pushable_inv in H.
Qed.

(** X5. A line of blanks makes the store unreadable.  When a store written
    by the queue is followed by a line that holds only blanks (an empty
    last line, for one), the reading loop raises the [ValueError] of the
    failed unpacking, and so do [pop] and [peek], whereas [is_empty]
    answers [False]. *)
Theorem blank_line_blocks_reading items blank :
  safe_entries items ->
  all_chars Py.isspace blank = true ->
  all_chars not_line_break blank = true ->
  let st := Some (encode_all items ++ blank ++ nl) in
  read_items st = (st, inl (ValueError NotEnoughValues)) /\
  pop st = (st, inl (ValueError NotEnoughValues)) /\
  peek st = (st, inl (ValueError NotEnoughValues)) /\
  is_empty st = (st, inr false).
Proof.
  intros Hs Hw Hb st.
  pose proof (safe_breakless _ Hs) as Hbr.
  rewrite not_line_break_split in Hb. apply andb_true_iff in Hb as [Hlf Hcr].
  assert (Hl : Py.lines (Py.universal_newlines (encode_all items ++ blank ++ nl))
               = (map encode_line items ++ [(blank ++ nl)%string])%list).
  { rewrite universal_newlines_id.
    - rewrite lines_encode_all_app by assumption. unfold nl.
      now rewrite (lines_app_line blank "" Hlf).
    - rewrite !all_chars_app, (encode_all_no_cr _ Hbr), Hcr. reflexivity. }
  assert (Hr : read_items st = (st, inl (ValueError NotEnoughValues))).
  { unfold st, read_items, bind, open_r_lines. rewrite Hl.
    rewrite (decode_lines_app _ items) by (now apply decode_lines_encode_safe).
    simpl. rewrite decode_line_blank; [reflexivity|].
    rewrite all_chars_app, Hw. reflexivity. }
  split; [exact Hr|]. split; [|split].
  - unfold pop, bind. now rewrite Hr.
  - unfold peek, bind. now rewrite Hr.
  - unfold st, is_empty, bind, open_r_lines, ret. rewrite Hl.
    now destruct (map encode_line items).
Qed.

Lemma blank_line_blocks_reading_witness :
  let st := Some (encode_all [(1, "A")] ++ "  " ++ nl) in
  read_items st = (st, inl (ValueError NotEnoughValues)) /\
  pop st = (st, inl (ValueError NotEnoughValues)) /\
  peek st = (st, inl (ValueError NotEnoughValues)) /\
  is_empty st = (st, inr false).
Proof.
  apply (blank_line_blocks_reading [(1, "A")] "  ").
  - repeat constructor.
  - reflexivity.
  - reflexivity.
Defined.

(** ** Reading, then writing what was read *)

Lemma decoded_item_ends l p item :
  decode_line l = inr (p, item) -> ends_nonblank Py.isspace item = true.
Proof.
  unfold decode_line, Py.split_space_1.
  pose proof (rstrip_empty_or_ends Py.isspace (Py.lstrip_with Py.isspace l))
    as He.
  fold (Py.strip_with Py.isspace l) in He. fold Py.strip in He.
  destruct (Py.cut_space (Py.strip l)) as [[a b]|] eqn:Ec; [|discriminate].
  apply cut_space_inv in Ec. rewrite Ec in He.
  destruct (Py.int a); [|discriminate]. intros [= _ ->].
  destruct He as [He|He]; [now destruct a|].
  rewrite ends_nonblank_app in He. destruct item; [discriminate He|exact He].
Qed.

(** X6. Whatever line decodes, the entry it decodes to is one the line
    format carries unchanged: encoding that entry and decoding it again
    gives the same entry. *)
Theorem decode_encode_decode l e :
  decode_line l = inr e -> decode_line (encode_line e) = inr e.
Proof.
  destruct e as [p item]. intros H.
  apply decode_encode_line. now apply (decoded_item_ends l p).
Qed.

Lemma decode_encode_decode_witness :
  decode_line ("+1_0   two  words   " ++ nl) = inr (10, "  two  words") /\
  decode_line (encode_line (10, "  two  words")) = inr (10, "  two  words").
Proof.
  split; [reflexivity|].
  apply (decode_encode_decode ("+1_0   two  words   " ++ nl)). reflexivity.
Defined.

(** X7. The entries read from a store that decodes are read back unchanged
    once written by the writing loop, whatever the spelling of the original
    lines: the store written decodes to the same entries. *)
Theorem rewritten_store_decodes_alike st items :
  decodes_to st items ->
  decodes_to (fst (write_items items st)) items.
Proof.
  intros Hd. simpl. apply read_written. now apply (decoded_safe st).
Qed.

Lemma rewritten_store_decodes_alike_witness :
  decodes_to (fst (write_items [(5, "a b"); (-3, " c")]
                     (Some ("+5 a b  " ++ nl ++ "-0_3  c"))))
             [(5, "a b"); (-3, " c")].
Proof.
  apply (rewritten_store_decodes_alike
           (Some ("+5 a b  " ++ nl ++ "-0_3  c")) [(5, "a b"); (-3, " c")]).
  reflexivity.
Defined.

(** ** Draining a store *)

Lemma decodes_to_nil st : decodes_to st [] -> st = Some "".
Proof.
  intros H. apply decodes_to_inv in H as (txt & -> & H).
  apply decode_lines_length in H. simpl in H.
  destruct (Py.lines (Py.universal_newlines txt)) eqn:E; [|discriminate H].
  apply lines_nil, universal_newlines_nil in E. now subst.
Qed.

Lemma pop_until_empty_any fuel st items :
  decodes_to st items -> (List.length items < fuel)%nat ->
  pop_until_empty fuel st
  = Some (Some "", inr (map item_of (Py.sort_by priority_of items))).
Proof.
  intros Hd Hf. destruct items as [|x xs].
  - apply decodes_to_nil in Hd. subst st.
    destruct fuel; [simpl in Hf; lia|reflexivity].
  - apply (pop_until_empty_decoded fuel st (x :: xs) Hd); [discriminate|exact Hf].
Qed.

(** X8. Whatever store decodes, however it was written, calling [pop]
    until the queue is empty returns every item once, in ascending
    priority, the entries of one priority in their order in the file, and
    leaves an empty file. *)
Theorem drain_of_any_store st items fuel :
  decodes_to st items -> (List.length items < fuel)%nat ->
  let sorted := Py.sort_by priority_of items in
  pop_until_empty fuel st = Some (Some "", inr (map item_of sorted)) /\
  ascending priority_of sorted /\
  Permutation sorted items /\
  forall p, filter (fun e => priority_of e =? p) sorted
            = filter (fun e => priority_of e =? p) items.
Proof.
  intros Hd Hf sorted. split; [|split; [|split]].
  - now apply pop_until_empty_any.
  - apply sort_by_ascending.
  - apply sort_by_perm.
  - intros p. apply sort_by_stable.
Qed.

Lemma drain_of_any_store_witness :
  let items := [(5, "a b"); (-3, " c"); (5, "d")] in
  let sorted := Py.sort_by priority_of items in
  pop_until_empty 4 (Some ("+5 a b  " ++ nl ++ "-0_3  c" ++ nl ++ "5 d"))
  = Some (Some "", inr (map item_of sorted)) /\
  ascending priority_of sorted /\
  Permutation sorted items /\
  forall p, filter (fun e => priority_of e =? p) sorted
            = filter (fun e => priority_of e =? p) items.
Proof.
  apply (drain_of_any_store
           (Some ("+5 a b  " ++ nl ++ "-0_3  c" ++ nl ++ "5 d"))
           [(5, "a b"); (-3, " c"); (5, "d")] 4).
  - reflexivity.
  - simpl. lia.
Defined.

(** ** More on [reorder_priorities] and [change_priority] *)

Lemma renumber_items items : forall k,
  map item_of (renumber k items) = map item_of items.
Proof.
  induction items as [|[p i] items IH]; intros k; [reflexivity|].
  cbn [renumber map]. now rewrite IH.
Qed.

Lemma renumber_length items : forall k,
  List.length (renumber k items) = List.length items.
Proof.
  induction items as [|[p i] items IH]; intros k; [reflexivity|].
  cbn [renumber List.length]. now rewrite IH.
Qed.

Lemma reorder_decoded st items :
  decodes_to st items ->
  let r := renumber 1 (Py.sort_by priority_of items) in
  reorder_priorities st = (Some (encode_all r), inr tt) /\
  decodes_to (Some (encode_all r)) r.
Proof.
  intros Hd r. split.
  - unfold reorder_priorities, bind. now rewrite Hd.
  - apply read_written, renumber_safe, sort_by_safe, (decoded_safe st), Hd.
Qed.

(** X9. [reorder_priorities] changes the priorities and nothing else a
    caller can see through [pop]: on a store that decodes, the items come
    out of the renumbered store in the order they would have come out of
    the original one. *)
Theorem reorder_priorities_keeps_pop_order st items fuel :
  decodes_to st items -> (List.length items < fuel)%nat ->
  pop_until_empty fuel (fst (reorder_priorities st))
  = pop_until_empty fuel st.
Proof.
  intros Hd Hf. destruct (reorder_decoded st items Hd) as [Hr Hdr].
  rewrite Hr. simpl fst.
  rewrite (pop_until_empty_any fuel st items Hd Hf).
  rewrite (pop_until_empty_any fuel _ _ Hdr).
  - rewrite (sort_by_fixed priority_of) by apply renumber_ascending.
    now rewrite renumber_items.
  - rewrite renumber_length.
    now rewrite (Permutation_length (sort_by_perm priority_of items)).
Qed.

Lemma reorder_priorities_keeps_pop_order_witness :
  pop_until_empty 4
    (fst (reorder_priorities (Some ("10 A" ++ nl ++ "-2 B" ++ nl ++ "10 C" ++ nl))))
  = pop_until_empty 4 (Some ("10 A" ++ nl ++ "-2 B" ++ nl ++ "10 C" ++ nl)).
Proof.
  apply (reorder_priorities_keeps_pop_order
           (Some ("10 A" ++ nl ++ "-2 B" ++ nl ++ "10 C" ++ nl))
           [(10, "A"); (-2, "B"); (10, "C")] 4).
  - reflexivity.
  - simpl. lia.
Defined.

Lemma change_priority_decoded st items target new_priority :
  decodes_to st items ->
  (exists e, In e items /\ item_of e = target) ->
  let u := map (retarget target new_priority) items in
  change_priority target new_priority st = (Some (encode_all u), inr tt) /\
  decodes_to (Some (encode_all u)) u.
Proof.
  intros Hd (e & Hin & He) u. split.
  - unfold change_priority, bind. rewrite Hd, update_items_map.
    replace (existsb _ items) with true; [reflexivity|].
    symmetry. apply existsb_exists. exists e. split; [exact Hin|].
    now apply String.eqb_eq.
  - apply read_written, retarget_safe, (decoded_safe st), Hd.
Qed.

Lemma retarget_item target new_priority e :
  item_of (retarget target new_priority e) = item_of e.
Proof.
  unfold retarget. now destruct (String.eqb (item_of e) target).
Qed.

Lemma retarget_twice target new_priority e :
  retarget target new_priority (retarget target new_priority e)
  = retarget target new_priority e.
Proof.
  unfold retarget at 2. destruct (String.eqb (item_of e) target) eqn:E.
  - unfold retarget. simpl. now rewrite E.
  - unfold retarget. now rewrite E.
Qed.

(** X10. [change_priority] is idempotent: on a store that decodes and
    holds the target item, a second call with the same arguments succeeds
    and writes the store the first call wrote. *)
Theorem change_priority_twice st items target new_priority :
  decodes_to st items ->
  (exists e, In e items /\ item_of e = target) ->
  let st1 := fst (change_priority target new_priority st) in
  change_priority target new_priority st1 = (st1, inr tt).
Proof.
  intros Hd Hin st1.
  destruct (change_priority_decoded st items target new_priority Hd Hin)
    as [Hc Hdu].
  unfold st1. rewrite Hc. simpl fst.
  set (u := map (retarget target new_priority) items) in *.
  assert (Hin' : exists e, In e u /\ item_of e = target).
  { destruct Hin as (e & Hin & He). exists (retarget target new_priority e).
    split; [now apply in_map|]. now rewrite retarget_item. }
  destruct (change_priority_decoded _ u target new_priority Hdu Hin')
    as [Hc' _].
  assert (Hu : map (retarget target new_priority) u = u).
  { unfold u. rewrite map_map. apply map_ext. intros e.
    apply retarget_twice. }
  now rewrite Hc', Hu.
Qed.

Lemma change_priority_twice_witness :
  let st1 := fst (change_priority "A" 9
                    (Some ("1 A" ++ nl ++ "2 B" ++ nl ++ "3 A" ++ nl))) in
  change_priority "A" 9 st1 = (st1, inr tt).
Proof.
  apply (change_priority_twice
           (Some ("1 A" ++ nl ++ "2 B" ++ nl ++ "3 A" ++ nl))
           [(1, "A"); (2, "B"); (3, "A")] "A" 9).
  - reflexivity.
  - exists (1, "A"). split; [now left|reflexivity].
Defined.

Lemma highest_priority_least items m :
  highest_priority items = Some m ->
  In m items /\ forall y, In y items -> priority_of m <= priority_of y.
Proof.
  destruct items as [|x xs]; [discriminate|]. unfold highest_priority.
  intros [= <-].
  destruct (min_from_first priority_of x xs) as (b & m & a & E & Hm & Fb & Fa).
  rewrite Hm, E. split; [apply in_elt|].
  intros y Hy. apply in_app_or in Hy as [Hy|[<-|Hy]].
  - rewrite Forall_forall in Fb. specialize (Fb y Hy). lia.
  - lia.
  - rewrite Forall_forall in Fa. now apply Fa.
Qed.

Lemma highest_priority_retarget items target new_priority :
  (exists e, In e items /\ item_of e = target) ->
  (forall x, In x items -> item_of x <> target ->
             new_priority < priority_of x) ->
  exists m,
    highest_priority (map (retarget target new_priority) items) = Some m /\
    item_of m = target.
Proof.
  intros (e & Hin & He) Hlow.
  destruct (highest_priority (map (retarget target new_priority) items))
    as [m|] eqn:Eh.
  2:{ destruct items; [easy|discriminate Eh]. }
  exists m. split; [reflexivity|].
  apply highest_priority_least in Eh as [Hm Hall].
  apply in_map_iff in Hm as (m0 & <- & Hin0).
  rewrite retarget_item.
  destruct (String.eqb_spec (item_of m0) target) as [Et|Et]; [exact Et|].
  specialize (Hall _ (in_map (retarget target new_priority) _ _ Hin)).
  specialize (Hlow m0 Hin0 Et).
  unfold retarget in Hall.
  apply String.eqb_eq in He. rewrite He in Hall.
  apply String.eqb_neq in Et. rewrite Et in Hall.
  unfold priority_of in Hall at 2. simpl in Hall. lia.
Qed.

(** X11. Moving an item to the front: when [change_priority] gives the
    target item a priority strictly below that of every entry with another
    item, the next [pop] (and the next [peek]) returns the target item. *)
Theorem change_priority_to_front st items target new_priority :
  decodes_to st items ->
  (exists e, In e items /\ item_of e = target) ->
  (forall x, In x items -> item_of x <> target ->
             new_priority < priority_of x) ->
  let st1 := fst (change_priority target new_priority st) in
  snd (pop st1) = inr target /\ snd (peek st1) = inr target.
Proof.
  intros Hd Hin Hlow st1.
  destruct (change_priority_decoded st items target new_priority Hd Hin)
    as [Hc Hdu].
  unfold st1. rewrite Hc. simpl fst.
  destruct (highest_priority_retarget items target new_priority Hin Hlow)
    as (m & Hm & Ht).
  rewrite (pop_result_decoded _ _ Hdu), (peek_decoded _ _ Hdu), Hm, Ht.
  now split.
Qed.

Lemma change_priority_to_front_witness :
  let st1 := fst (change_priority "C" 0
                    (Some ("1 A" ++ nl ++ "2 B" ++ nl ++ "3 C" ++ nl))) in
  snd (pop st1) = inr "C" /\ snd (peek st1) = inr "C".
Proof.
  apply (change_priority_to_front
           (Some ("1 A" ++ nl ++ "2 B" ++ nl ++ "3 C" ++ nl))
           [(1, "A"); (2, "B"); (3, "C")] "C" 0).
  - reflexivity.
  - exists (3, "C"). split; [simpl; auto|reflexivity].
  - intros x [<-|[<-|[<-|[]]]] H; simpl; lia.
Defined.

(** ** [push] on a store that already holds entries *)

Lemma universal_newlines_cr_lf s :
  Py.universal_newlines (String Py.CR (String Py.LF s))
  = String Py.LF (Py.universal_newlines s).
Proof. reflexivity. Qed.

Lemma universal_newlines_cr d s :
  Ascii.eqb d Py.LF = false ->
  Py.universal_newlines (String Py.CR (String d s))
  = String Py.LF (Py.universal_newlines (String d s)).
Proof.
  intros Hd.
  change (Py.universal_newlines (String Py.CR (String d s)))
    with (if Ascii.eqb d Py.LF
          then String Py.LF (Py.universal_newlines s)
          else String Py.LF (Py.universal_newlines (String d s))).
  now rewrite Hd.
Qed.

Lemma universal_newlines_other c s :
  Ascii.eqb c Py.CR = false ->
  Py.universal_newlines (String c s) = String c (Py.universal_newlines s).
Proof.
  intros Hc.
  change (Py.universal_newlines (String c s))
    with (if Ascii.eqb c Py.CR
          then match s with
               | String d s'' =>
                   if Ascii.eqb d Py.LF
                   then String Py.LF (Py.universal_newlines s'')
                   else String Py.LF (Py.universal_newlines s)
               | EmptyString => String Py.LF EmptyString
               end
          else String c (Py.universal_newlines s)).
  now rewrite Hc.
Qed.

Lemma universal_newlines_app_lf t :
  exists u, forall b,
    Py.universal_newlines (t ++ String Py.LF b)
    = u ++ String Py.LF (Py.universal_newlines b).
Proof.
  assert (G : forall n t, (String.length t <= n)%nat ->
            exists u, forall b,
              Py.universal_newlines (t ++ String Py.LF b)
              = u ++ String Py.LF (Py.universal_newlines b)).
  { clear t. induction n as [|n IH]; intros [|c t] Hn; simpl in Hn;
      try lia; try (exists ""; intros b; reflexivity).
    destruct (Ascii.eqb c Py.CR) eqn:Ec.
    - apply Ascii.eqb_eq in Ec. subst c. destruct t as [|d t].
      + exists "". intros b. reflexivity.
      + destruct (Ascii.eqb d Py.LF) eqn:Ed.
        * apply Ascii.eqb_eq in Ed. subst d.
          destruct (IH t) as [u Hu]; [simpl in Hn; lia|].
          exists (String Py.LF u). intros b.
          change (String Py.CR (String Py.LF t) ++ String Py.LF b)
            with (String Py.CR (String Py.LF (t ++ String Py.LF b))).
          rewrite universal_newlines_cr_lf, Hu. reflexivity.
        * destruct (IH (String d t)) as [u Hu]; [lia|].
          exists (String Py.LF u). intros b.
          change (String Py.CR (String d t) ++ String Py.LF b)
            with (String Py.CR (String d (t ++ String Py.LF b))).
          rewrite (universal_newlines_cr d _ Ed).
          change (String d (t ++ String Py.LF b))
            with (String d t ++ String Py.LF b).
          rewrite Hu. reflexivity.
    - destruct (IH t) as [u Hu]; [lia|].
      exists (String c u). intros b.
      change (String c t ++ String Py.LF b)
        with (String c (t ++ String Py.LF b)).
      rewrite (universal_newlines_other c _ Ec), Hu. reflexivity. }
  now apply (G (String.length t)).
Qed.

Lemma lines_app_lf u r :
  Py.lines (u ++ String Py.LF r)
  = (Py.lines (u ++ String Py.LF "") ++ Py.lines r)%list.
Proof.
  induction u as [|c u IH]; [reflexivity|]. simpl.
  destruct (Ascii.eqb c Py.LF); [now rewrite IH|].
  rewrite IH.
  destruct (Py.lines (u ++ String Py.LF "")) as [|l ls] eqn:E; [|reflexivity].
  apply lines_nil in E. now destruct u.
Qed.

Lemma lines_universal_app t b :
  Py.lines (Py.universal_newlines ((t ++ nl) ++ b))
  = (Py.lines (Py.universal_newlines (t ++ nl))
     ++ Py.lines (Py.universal_newlines b))%list.
Proof.
  destruct (universal_newlines_app_lf t) as [u Hu].
  unfold nl. rewrite append_assoc. simpl (String Py.LF "" ++ b).
  rewrite (Hu b), (Hu ""). simpl (Py.universal_newlines "").
  apply lines_app_lf.
Qed.

Lemma decode_pushed_line p item :
  pushable item = true ->
  decode_lines (Py.lines (Py.universal_newlines (encode_line (p, item))))
  = inr [(p, Py.rstrip item)].
Proof.
  intros Hp.
  assert (H : decodes_to (Some (encode_all [(p, item)]))
                         (map as_read [(p, item)])).
  { apply read_pushed. now constructor. }
  apply decodes_to_inv in H as (txt & [= <-] & H).
  unfold encode_all in H. simpl fold_right in H.
  now rewrite append_nil_r in H.
Qed.

(** X12. [push] adds one entry at the end and touches no other: on a store
    that decodes and whose text is empty or ends with a line feed (as every
    text the queue writes does), pushing an item that has no line feed or
    carriage return and some character that is not a blank leaves a store
    that decodes to the old entries, in their order, followed by the new
    entry (its item without the blanks at its end). *)
Theorem push_adds_last_entry txt items item priority :
  decodes_to (Some txt) items ->
  newline_terminated txt ->
  pushable item = true ->
  decodes_to (fst (push item priority (Some txt)))
             (items ++ [(priority, Py.rstrip item)])%list.
Proof.
  intros Hd Hnt Hp. rewrite push_appends. simpl fst. simpl content.
  pose proof (decode_pushed_line priority item Hp) as Hline.
  destruct Hnt as [->|[t ->]].
  - assert (items = []) as ->.
    { apply decodes_to_inv in Hd as (t & [= <-] & H). simpl in H.
      now injection H. }
    unfold decodes_to, read_items, bind, open_r_lines.
    change ("" ++ encode_line (priority, item))
      with (encode_line (priority, item)).
    now rewrite Hline.
  - apply decodes_to_inv in Hd as (t0 & [= <-] & Hl).
    unfold decodes_to, read_items, bind, open_r_lines.
    rewrite lines_universal_app, (decode_lines_app _ items _ Hl), Hline.
    reflexivity.
Qed.

Lemma push_adds_last_entry_witness :
  decodes_to (fst (push " E  " 0 (Some ("+5 a b  " ++ nl ++ "-3  c" ++ nl))))
             ([(5, "a b"); (-3, " c")] ++ [(0, Py.rstrip " E  ")])%list.
Proof.
  apply (push_adds_last_entry ("+5 a b  " ++ nl ++ "-3  c" ++ nl)
           [(5, "a b"); (-3, " c")] " E  " 0).
  - reflexivity.
  - right. exists ("+5 a b  " ++ nl ++ "-3  c"). reflexivity.
  - reflexivity.
Defined.

(** ** More on [insert_and_shift_up] *)

Section SortFacts.
Context {A : Type} (key : A -> Z).

Lemma sort_by_map_order (f : A -> A) xs :
  (forall a b, (key (f a) <=? key (f b)) = (key a <=? key b)) ->
  Py.sort_by key (map f xs) = map f (Py.sort_by key xs).
Proof.
  intros Hf.
  assert (Hi : forall x l, Py.insert_by key (f x) (map f l)
                           = map f (Py.insert_by key x l)).
  { intros x l. induction l as [|y l IH]; [reflexivity|].
    simpl. rewrite Hf, IH. now destruct (key x <=? key y). }
  induction xs as [|x xs IH]; [reflexivity|].
  simpl. now rewrite IH, Hi.
Qed.

Lemma insert_by_around y : forall b x a,
  ascending key (b ++ x :: a)%list ->
  exists b' a',
    Py.insert_by key y (b ++ x :: a)%list = (b' ++ x :: a')%list /\
    Py.insert_by key y (b ++ a)%list = (b' ++ a')%list.
Proof.
  unfold ascending. induction b as [|z b IH]; intros x a Hs; simpl.
  - destruct (Z.leb_spec (key y) (key x)) as [Hle|Hgt].
    + exists [y], a. split; [reflexivity|].
      destruct a as [|z a]; [reflexivity|]. simpl.
      inversion Hs as [|? ? _ Hh]; subst. inversion Hh; subst.
      destruct (Z.leb_spec (key y) (key z)); [reflexivity|lia].
    + exists [], (Py.insert_by key y a). now split.
  - destruct (Z.leb_spec (key y) (key z)) as [Hle|Hgt].
    + exists (y :: z :: b), a. now split.
    + inversion Hs as [|? ? Hs' _]; subst.
      destruct (IH x a Hs') as (b' & a' & E1 & E2).
      exists (z :: b'), a'. simpl. now rewrite E1, E2.
Qed.

(** One more element at the end of the input is one more element at one
    place of the sorted output. *)
Lemma sort_by_app_last x : forall l,
  exists b a,
    Py.sort_by key (l ++ [x])%list = (b ++ x :: a)%list /\
    Py.sort_by key l = (b ++ a)%list.
Proof.
  induction l as [|y l (b & a & E1 & E2)].
  - exists [], []. now split.
  - simpl. rewrite E1, E2. apply insert_by_around.
    rewrite <- E1. apply sort_by_ascending.
Qed.

Lemma ascending_around b x a :
  ascending key (b ++ x :: a)%list ->
  Forall (fun y => key y <= key x) b /\ Forall (fun y => key x <= key y) a.
Proof.
  unfold ascending. intros Hs.
  apply Sorted_StronglySorted in Hs; [|intros p q r; lia].
  induction b as [|z b IH]; simpl in Hs.
  - split; [constructor|]. now inversion Hs.
  - inversion Hs as [|? ? Hs' Hall]; subst.
    destruct (IH Hs') as [Hb Ha]. split; [|exact Ha].
    constructor; [|exact Hb].
    rewrite Forall_forall in Hall. apply Hall, in_elt.
Qed.
End SortFacts.

Lemma shift_up_item target e : item_of (shift_up target e) = item_of e.
Proof. now destruct e. Qed.

Lemma shift_up_priority target e :
  priority_of (shift_up target e)
  = if priority_of e >=? target then priority_of e + 1 else priority_of e.
Proof. now destruct e. Qed.

Lemma shift_up_avoids target e : priority_of (shift_up target e) <> target.
Proof.
  rewrite shift_up_priority.
  destruct (Z.geb_spec (priority_of e) target); lia.
Qed.

Lemma shift_up_order target a b :
  (priority_of (shift_up target a) <=? priority_of (shift_up target b))
  = (priority_of a <=? priority_of b).
Proof.
  rewrite !shift_up_priority.
  destruct (Z.geb_spec (priority_of a) target),
    (Z.geb_spec (priority_of b) target),
    (Z.leb_spec (priority_of a) (priority_of b)); lia.
Qed.

Lemma shift_up_safe target items :
  safe_entries items -> safe_entries (map (shift_up target) items).
Proof.
  unfold safe_entries. rewrite Forall_map. apply Forall_impl.
  intros e. now rewrite shift_up_item.
Qed.

(** What [insert_and_shift_up] writes, and what the store then decodes
    to. *)
Lemma insert_and_shift_up_decoded st items item target :
  decodes_to st items -> pushable item = true ->
  let shifted := map (shift_up target) items in
  let written :=
    Py.sort_by priority_of (shifted ++ [(target, Py.rstrip item)])%list in
  decodes_to (fst (insert_and_shift_up item target st)) written.
Proof.
  intros Hd Hp shifted written.
  unfold insert_and_shift_up, bind. rewrite Hd. simpl fst.
  fold shifted.
  assert (Hs : safe_entries shifted)
    by (apply shift_up_safe, (decoded_safe st), Hd).
  assert (E : written
              = map as_read (Py.sort_by priority_of
                               (shifted ++ [(target, item)])%list)).
  { rewrite <- (sort_by_map priority_of as_read) by reflexivity.
    unfold written. f_equal. rewrite map_app, (as_read_safe _ Hs).
    reflexivity. }
  rewrite E. apply read_pushed.
  eapply Permutation_Forall; [symmetry; apply sort_by_perm|].
  apply Forall_app. split.
  - eapply Forall_impl; [|exact Hs]. intros e. apply line_safe_pushable.
  - now constructor.
Qed.

(** X13. After [insert_and_shift_up] of an item a line can carry, on a
    store that decodes, the store decodes to a list in ascending priority
    that has one entry more, and the new entry is the only one at the
    target priority: every entry that was at the target or above has been
    moved up. *)
Theorem insert_and_shift_up_makes_room st items item target :
  decodes_to st items -> pushable item = true ->
  exists written,
    decodes_to (fst (insert_and_shift_up item target st)) written /\
    ascending priority_of written /\
    List.length written = S (List.length items) /\
    filter (fun e => priority_of e =? target) written
    = [(target, Py.rstrip item)].
Proof.
  intros Hd Hp. eexists. split; [|split; [|split]].
  - apply (insert_and_shift_up_decoded st items item target Hd Hp).
  - apply sort_by_ascending.
  - rewrite (Permutation_length (sort_by_perm priority_of _)).
    rewrite length_app, length_map. simpl. lia.
  - rewrite sort_by_stable, filter_app.
    assert (E0 : filter (fun e => priority_of e =? target)
                   (map (shift_up target) items) = []).
    2:{ rewrite E0. cbn [filter app priority_of fst].
        now rewrite Z.eqb_refl. }
    clear Hd. induction items as [|e items IH]; [reflexivity|]. simpl.
    destruct (Z.eqb_spec (priority_of (shift_up target e)) target) as [E|_];
      [now apply shift_up_avoids in E|exact IH].
Qed.

Lemma insert_and_shift_up_makes_room_witness :
  exists written,
    decodes_to
      (fst (insert_and_shift_up "D " 2
              (Some ("3 C" ++ nl ++ "1 A" ++ nl ++ "2 B" ++ nl)))) written /\
    ascending priority_of written /\
    List.length written = S (List.length [(3, "C"); (1, "A"); (2, "B")]) /\
    filter (fun e => priority_of e =? 2) written = [(2, Py.rstrip "D ")].
Proof.
  apply (insert_and_shift_up_makes_room
           (Some ("3 C" ++ nl ++ "1 A" ++ nl ++ "2 B" ++ nl))
           [(3, "C"); (1, "A"); (2, "B")] "D " 2).
  - reflexivity.
  - reflexivity.
Defined.

Lemma shift_up_inj target a b :
  priority_of (shift_up target a) = priority_of (shift_up target b) ->
  priority_of a = priority_of b.
Proof.
  rewrite !shift_up_priority.
  destruct (Z.geb_spec (priority_of a) target),
    (Z.geb_spec (priority_of b) target); lia.
Qed.

Lemma shift_up_distinct target items :
  NoDup (map priority_of items) ->
  NoDup (map priority_of (map (shift_up target) items)).
Proof.
  induction items as [|e items IH]; simpl; intros H; [constructor|].
  apply NoDup_cons_iff in H as [Hn Hd]. constructor; [|now apply IH].
  intros Hin. apply Hn. rewrite map_map in Hin.
  apply in_map_iff in Hin as (e' & He & Hin).
  apply shift_up_inj in He. rewrite <- He. now apply in_map.
Qed.

(** X14. [insert_and_shift_up] of an item a line can carry (no line feed
    or carriage return inside, some character that is not a blank) keeps
    priorities distinct: when no two entries of a store that decodes share
    a priority, no two entries of the store it leaves share one, the new
    entry included. *)
Theorem insert_and_shift_up_keeps_priorities_distinct st items item target :
  decodes_to st items -> pushable item = true ->
  NoDup (map priority_of items) ->
  exists written,
    decodes_to (fst (insert_and_shift_up item target st)) written /\
    NoDup (map priority_of written).
Proof.
  intros Hd Hp Hn. eexists. split.
  - apply (insert_and_shift_up_decoded st items item target Hd Hp).
  - eapply Permutation_NoDup.
    { apply Permutation_map. symmetry. apply sort_by_perm. }
    eapply Permutation_NoDup.
    { apply Permutation_map. apply Permutation_cons_append. }
    simpl. constructor; [|now apply shift_up_distinct].
    unfold priority_of at 1. simpl. rewrite map_map.
    intros Hin. apply in_map_iff in Hin as (e & He & _).
    now apply shift_up_avoids in He.
Qed.

Lemma insert_and_shift_up_keeps_priorities_distinct_witness :
  exists written,
    decodes_to
      (fst (insert_and_shift_up "D" 2
              (Some ("3 C" ++ nl ++ "1 A" ++ nl ++ "2 B" ++ nl)))) written /\
    NoDup (map priority_of written).
Proof.
  apply (insert_and_shift_up_keeps_priorities_distinct
           (Some ("3 C" ++ nl ++ "1 A" ++ nl ++ "2 B" ++ nl))
           [(3, "C"); (1, "A"); (2, "B")] "D" 2).
  - reflexivity.
  - reflexivity.
  - simpl. repeat constructor; simpl; intuition discriminate.
Defined.

Lemma filter_map_pre {A B} (f : A -> B) (q : B -> bool) l :
  filter q (map f l) = map f (filter (fun x => q (f x)) l).
Proof.
  induction l as [|x l IH]; [reflexivity|]. simpl.
  destruct (q (f x)); simpl; now rewrite IH.
Qed.

Lemma filter_all {A} (q : A -> bool) l :
  Forall (fun x => q x = true) l -> filter q l = l.
Proof.
  induction 1 as [|x l Hx _ IH]; [reflexivity|]. simpl. now rewrite Hx, IH.
Qed.

Lemma filter_none {A} (q : A -> bool) l :
  Forall (fun x => q x = false) l -> filter q l = [].
Proof.
  induction 1 as [|x l Hx _ IH]; [reflexivity|]. simpl. now rewrite Hx, IH.
Qed.

(** Where the new entry lands among the sorted old ones. *)
Lemma sort_shifted_with_new target (new_entry : entry) items :
  priority_of new_entry = target ->
  let sorted := Py.sort_by priority_of items in
  Py.sort_by priority_of (map (shift_up target) items ++ [new_entry])%list
  = (map (shift_up target)
       (filter (fun e => priority_of e <? target) sorted)
     ++ new_entry
        :: map (shift_up target)
             (filter (fun e => target <=? priority_of e) sorted))%list.
Proof.
  intros Hnew sorted.
  destruct (sort_by_app_last priority_of new_entry
              (map (shift_up target) items)) as (b & a & E1 & E2).
  rewrite (sort_by_map_order priority_of (shift_up target))
    in E2 by (intros x y; apply shift_up_order).
  fold sorted in E2.
  pose proof (sort_by_ascending priority_of
                (map (shift_up target) items ++ [new_entry])%list) as Hasc.
  rewrite E1 in Hasc. apply ascending_around in Hasc as [Hb Ha].
  rewrite Hnew in Hb, Ha.
  assert (Hne : Forall (fun e => priority_of e <> target) (b ++ a)%list).
  { rewrite <- E2. rewrite Forall_map. apply Forall_forall.
    intros e _. apply shift_up_avoids. }
  apply Forall_app in Hne as [Hnb Hna].
  assert (Fb : Forall (fun e => priority_of e < target) b).
  { rewrite Forall_forall in *. intros e He.
    specialize (Hb e He). specialize (Hnb e He). clear - Hb Hnb. lia. }
  assert (Fa : Forall (fun e => target < priority_of e) a).
  { rewrite Forall_forall in *. intros e He.
    specialize (Ha e He). specialize (Hna e He). clear - Ha Hna. lia. }
  assert (Eb : b = filter (fun e => priority_of e <? target) (b ++ a)%list).
  { rewrite filter_app, filter_all, filter_none, app_nil_r; [reflexivity| |].
    - eapply Forall_impl; [|exact Fa]. intros e He. cbv beta in *.
      apply Z.ltb_ge. lia.
    - eapply Forall_impl; [|exact Fb]. intros e He. cbv beta in *.
      now apply Z.ltb_lt. }
  assert (Ea : a = filter (fun e => target <=? priority_of e) (b ++ a)%list).
  { rewrite filter_app, filter_none, filter_all; [reflexivity| |].
    - eapply Forall_impl; [|exact Fa]. intros e He. cbv beta in *.
      apply Z.leb_le. lia.
    - eapply Forall_impl; [|exact Fb]. intros e He. cbv beta in *.
      apply Z.leb_gt. lia. }
  rewrite E1. rewrite Eb at 1. rewrite Ea at 2. rewrite <- E2.
  rewrite !filter_map_pre. f_equal; [|f_equal].
  - f_equal. apply filter_ext. intros e. rewrite shift_up_priority.
    destruct (Z.geb_spec (priority_of e) target),
      (Z.ltb_spec (priority_of e + 1) target),
      (Z.ltb_spec (priority_of e) target); lia || reflexivity.
  - f_equal. apply filter_ext. intros e. rewrite shift_up_priority.
    destruct (Z.geb_spec (priority_of e) target),
      (Z.leb_spec target (priority_of e + 1)),
      (Z.leb_spec target (priority_of e)); lia || reflexivity.
Qed.

(** X15. [insert_and_shift_up] of an item a line can carry (no line feed
    or carriage return inside, some character that is not a blank) puts
    the new item at one place of the pop order and changes nothing else in
    it: after the call on a store that decodes, the pops return first the
    old items of priority below the target, in the order they had, then
    the new item without the blanks at its end, then the old items of
    priority at or above the target, in the order they had. *)
Theorem insert_and_shift_up_pop_order st items item target fuel :
  decodes_to st items -> pushable item = true ->
  (S (List.length items) < fuel)%nat ->
  let sorted := Py.sort_by priority_of items in
  pop_until_empty fuel st = Some (Some "", inr (map item_of sorted)) /\
  pop_until_empty fuel (fst (insert_and_shift_up item target st))
  = Some (Some "",
          inr (map item_of (filter (fun e => priority_of e <? target) sorted)
               ++ Py.rstrip item
                  :: map item_of
                       (filter (fun e => target <=? priority_of e) sorted))%list).
Proof.
  intros Hd Hp Hf sorted. split.
  - apply pop_until_empty_any; [exact Hd|lia].
  - pose proof (insert_and_shift_up_decoded st items item target Hd Hp) as Hw.
    cbv zeta in Hw.
    rewrite (pop_until_empty_any fuel _ _ Hw).
    + rewrite (sort_by_fixed priority_of) by apply sort_by_ascending.
      pose proof (sort_shifted_with_new target (target, Py.rstrip item) items
                    eq_refl) as Hs.
      cbv zeta in Hs. fold sorted in Hs. do 3 f_equal.
      etransitivity; [apply f_equal; exact Hs|].
      rewrite map_app. cbn [map]. rewrite !map_map. f_equal; [|f_equal].
      * apply map_ext. intros e. apply shift_up_item.
      * apply map_ext. intros e. apply shift_up_item.
    + rewrite (Permutation_length (sort_by_perm priority_of _)).
      rewrite length_app, length_map. simpl. lia.
Qed.

Lemma insert_and_shift_up_pop_order_witness :
  let st := Some ("3 C" ++ nl ++ "1 A" ++ nl ++ "2 B" ++ nl) in
  let sorted := Py.sort_by priority_of [(3, "C"); (1, "A"); (2, "B")] in
  pop_until_empty 5 st = Some (Some "", inr (map item_of sorted)) /\
  pop_until_empty 5 (fst (insert_and_shift_up "D " 2 st))
  = Some (Some "",
          inr (map item_of (filter (fun e => priority_of e <? 2) sorted)
               ++ Py.rstrip "D "
                  :: map item_of
                       (filter (fun e => 2 <=? priority_of e) sorted))%list).
Proof.
  apply (insert_and_shift_up_pop_order
           (Some ("3 C" ++ nl ++ "1 A" ++ nl ++ "2 B" ++ nl))
           [(3, "C"); (1, "A"); (2, "B")] "D " 2 5).
  - reflexivity.
  - reflexivity.
  - simpl. lia.
Defined.

(** ** [print_queue] *)

(** X16. [print_queue] never writes, and what it prints on a store that
    decodes is, before the line end that [print] adds, a text that decodes
    to the same entries as the store. *)
Theorem print_queue_prints_the_queue txt items :
  decodes_to (Some txt) items ->
  exists out,
    print_queue (Some txt) = (Some txt, inr (out ++ nl)) /\
    decodes_to (Some out) items.
Proof.
  intros Hd. exists (Py.universal_newlines txt). split; [reflexivity|].
  apply decodes_to_inv in Hd as (t & [= <-] & Hl).
  unfold decodes_to, read_items, bind, open_r_lines.
  rewrite (universal_newlines_id (Py.universal_newlines txt))
    by apply universal_newlines_no_cr.
  now rewrite Hl.
Qed.

Lemma print_queue_prints_the_queue_witness :
  exists out,
    print_queue (Some ("2 B" ++ String Py.CR nl ++ "1 A"))
    = (Some ("2 B" ++ String Py.CR nl ++ "1 A"), inr (out ++ nl)) /\
    decodes_to (Some out) [(2, "B"); (1, "A")].
Proof.
  apply (print_queue_prints_the_queue
           ("2 B" ++ String Py.CR nl ++ "1 A") [(2, "B"); (1, "A")]).
  reflexivity.
Defined.

(** ** The command line *)

Lemma call_other_file {A} self (m : IO A) fs p :
  p <> file_path self -> fst (call self m fs) p = fs p.
Proof.
  intros Hp. unfold call. destruct (m (fs (file_path self))) as [st r].
  simpl. unfold set_file. apply String.eqb_neq in Hp. now rewrite Hp.
Qed.

Lemma call_this_file {A} self (m : IO A) fs :
  fst (call self m fs) (file_path self) = fst (m (fs (file_path self))) /\
  snd (call self m fs) = snd (m (fs (file_path self))).
Proof.
  unfold call. destruct (m (fs (file_path self))) as [st r].
  simpl. unfold set_file. now rewrite String.eqb_refl.
Qed.

(** X17. The script ignores [--file]: whatever the arguments, it behaves
    as with any other value of [--file], and it leaves every file other
    than ["priority_queue.txt"] as it was. *)
Theorem main_ignores_file_option args path :
  main (with_file path args) = main args /\
  forall fs p, p <> "priority_queue.txt" -> fst (main args fs) p = fs p.
Proof.
  split; [reflexivity|]. intros fs p Hp. unfold main.
  now apply call_other_file.
Qed.

Lemma main_ignores_file_option_witness :
  let args := {| args_file := "other.txt";
                 args_push := Some ("A", "1");
                 args_pop := false; args_peek := false;
                 args_is_empty := false; args_change_priority := None;
                 args_reorder_priorities := false;
                 args_print_queue := false;
                 args_insert_and_shift_up := None |} in
  "other.txt" <> "priority_queue.txt" /\
  fst (main args (fun _ => None)) "other.txt" = None.
Proof.
  split; [discriminate|].
  apply (proj2 (main_ignores_file_option
                  {| args_file := "other.txt";
                     args_push := Some ("A", "1");
                     args_pop := false; args_peek := false;
                     args_is_empty := false; args_change_priority := None;
                     args_reorder_priorities := false;
                     args_print_queue := false;
                     args_insert_and_shift_up := None |} "x")
           (fun _ => None) "other.txt").
  discriminate.
Defined.

(** X18. [--insert_and_shift_up] is in a group of its own, so that it can
    come with an option of the first group; the [elif] chain then runs the
    option of the first group only: the script behaves as if
    [--insert_and_shift_up] had not been given. *)
Theorem main_first_group_wins args v :
  first_group_set args = true ->
  main (with_insert_and_shift_up v args) = main args.
Proof.
  unfold first_group_set, main. destruct args as [f pu po pe ie cp ro pq ins].
  simpl. destruct pu as [[i s]|]; [reflexivity|].
  destruct po; [reflexivity|]. destruct pe; [reflexivity|].
  destruct ie; [reflexivity|]. destruct cp as [[i s]|]; [reflexivity|].
  destruct ro; [reflexivity|]. destruct pq; [reflexivity|].
  discriminate.
Qed.

Lemma main_first_group_wins_witness :
  let args := {| args_file := "priority_queue.txt";
                 args_push := None;
                 args_pop := true; args_peek := false;
                 args_is_empty := false; args_change_priority := None;
                 args_reorder_priorities := false;
                 args_print_queue := false;
                 args_insert_and_shift_up := None |} in
  first_group_set args = true /\
  main (with_insert_and_shift_up (Some ("D", "2")) args) = main args.
Proof.
  split; [reflexivity|].
  apply (main_first_group_wins
           {| args_file := "priority_queue.txt";
              args_push := None;
              args_pop := true; args_peek := false;
              args_is_empty := false; args_change_priority := None;
              args_reorder_priorities := false;
              args_print_queue := false;
              args_insert_and_shift_up := None |} (Some ("D", "2"))).
  reflexivity.
Defined.

(** X19. A priority that [int] does not read stops the script before the
    queue is touched: with [--push item priority] where [priority] is not
    an integer literal, the script raises [ValueError], prints nothing and
    leaves every file as it was. *)
Theorem main_push_bad_priority args item priority fs :
  args_push args = Some (item, priority) ->
  Py.int priority = None ->
  snd (main args fs) = inl (ValueError InvalidLiteral) /\
  forall p, fst (main args fs) p = fs p.
Proof.
  intros Hpush Hint. unfold main. rewrite Hpush.
  set (pq := {| file_path := "priority_queue.txt" |}).
  set (m := (p <- int_arg priority ;; push item p ;; ret "")).
  assert (Hm : forall st, m st = (st, inl (ValueError InvalidLiteral))).
  { intros st. unfold m, bind, int_arg. now rewrite Hint. }
  destruct (call_this_file pq m fs) as [Hst Hr].
  rewrite Hm in Hst, Hr. split; [exact Hr|]. intros p.
  destruct (String.eqb_spec p (file_path pq)) as [->|Hp].
  - exact Hst.
  - now apply call_other_file.
Qed.

Lemma main_push_bad_priority_witness :
  let args := {| args_file := "priority_queue.txt";
                 args_push := Some ("A", "1.5");
                 args_pop := false; args_peek := false;
                 args_is_empty := false; args_change_priority := None;
                 args_reorder_priorities := false;
                 args_print_queue := false;
                 args_insert_and_shift_up := None |} in
  Py.int "1.5" = None /\
  snd (main args (fun _ => None)) = inl (ValueError InvalidLiteral) /\
  forall p, fst (main args (fun _ => None)) p = None.
Proof.
  split; [reflexivity|].
  apply (main_push_bad_priority
           {| args_file := "priority_queue.txt";
              args_push := Some ("A", "1.5");
              args_pop := false; args_peek := false;
              args_is_empty := false; args_change_priority := None;
              args_reorder_priorities := false;
              args_print_queue := false;
              args_insert_and_shift_up := None |} "A" "1.5" (fun _ => None)).
  - reflexivity.
  - reflexivity.
Defined.

(** X20. Two runs of the script: [--push item priority] on a missing or
    empty ["priority_queue.txt"], then [--pop].  When [priority] reads as
    an integer and the item is one a line can carry, the first run prints
    nothing, the second prints ["Popped item: "] followed by the item
    without the blanks at its end, and the file is left empty. *)
Theorem main_push_then_pop a1 a2 item priority p fs :
  args_push a1 = Some (item, priority) ->
  Py.int priority = Some p ->
  pushable item = true ->
  args_push a2 = None -> args_pop a2 = true ->
  content (fs "priority_queue.txt") = "" ->
  let run1 := main a1 fs in
  let run2 := main a2 (fst run1) in
  snd run1 = inr "" /\
  snd run2 = inr ("Popped item: " ++ Py.rstrip item ++ nl) /\
  fst run2 "priority_queue.txt" = Some "".
Proof.
  intros Hpush Hint Hp Hnone Hpop Hempty run1 run2.
  set (pq := {| file_path := "priority_queue.txt" |}).
  assert (Hd : decodes_to (Some (encode_line (p, item)))
                          [(p, Py.rstrip item)]).
  { pose proof (read_pushed [(p, item)]) as H.
    unfold encode_all in H. simpl fold_right in H. rewrite append_nil_r in H.
    apply H. now constructor. }
  assert (H1 : snd run1 = inr "" /\
               fst run1 "priority_queue.txt" = Some (encode_line (p, item))).
  { unfold run1, main. rewrite Hpush. fold pq.
    destruct (call_this_file pq (q <- int_arg priority ;; push item q ;; ret "")
                fs) as [Hst Hr].
    change (file_path pq) with "priority_queue.txt" in Hst, Hr.
    assert (Hm : forall st,
               (q <- int_arg priority ;; push item q ;; ret "") st
               = (Some (content st ++ encode_line (p, item)), inr "")).
    { intros st. unfold bind, int_arg. rewrite Hint. unfold ret at 1.
      now rewrite push_appends. }
    rewrite Hm in Hst, Hr. rewrite Hempty in Hst. now split. }
  destruct H1 as [Hr1 Hs1]. split; [exact Hr1|].
  unfold run2, main. rewrite Hnone, Hpop. fold pq.
  destruct (call_this_file pq
              (i <- pop ;; ret ("Popped item: " ++ i ++ nl)) (fst run1))
    as [Hst Hr].
  change (file_path pq) with "priority_queue.txt" in Hst, Hr.
  rewrite Hr, Hst, Hs1. unfold bind.
  destruct (pop_decoded _ _ Hd) as (b & e & a & E & _ & _ & Hpp);
    [discriminate|].
  rewrite Hpp.
  destruct b as [|x b]; [|destruct b; discriminate E].
  injection E as <- <-. now split.
Qed.

Lemma main_push_then_pop_witness :
  let a1 := {| args_file := "priority_queue.txt";
               args_push := Some ("Task C  ", " 3");
               args_pop := false; args_peek := false;
               args_is_empty := false; args_change_priority := None;
               args_reorder_priorities := false;
               args_print_queue := false;
               args_insert_and_shift_up := None |} in
  let a2 := {| args_file := "priority_queue.txt";
               args_push := None;
               args_pop := true; args_peek := false;
               args_is_empty := false; args_change_priority := None;
               args_reorder_priorities := false;
               args_print_queue := false;
               args_insert_and_shift_up := None |} in
  let run1 := main a1 (fun _ => None) in
  let run2 := main a2 (fst run1) in
  snd run1 = inr "" /\
  snd run2 = inr ("Popped item: " ++ Py.rstrip "Task C  " ++ nl) /\
  fst run2 "priority_queue.txt" = Some "".
Proof.
  apply (main_push_then_pop
           {| args_file := "priority_queue.txt";
              args_push := Some ("Task C  ", " 3");
              args_pop := false; args_peek := false;
              args_is_empty := false; args_change_priority := None;
              args_reorder_priorities := false;
              args_print_queue := false;
              args_insert_and_shift_up := None |}
           {| args_file := "priority_queue.txt";
              args_push := None;
              args_pop := true; args_peek := false;
              args_is_empty := false; args_change_priority := None;
              args_reorder_priorities := false;
              args_print_queue := false;
              args_insert_and_shift_up := None |}
           "Task C  " " 3" 3 (fun _ => None)); reflexivity.
Defined.
